(** * Mojik AI landing page: the interaction script [script.js]

    A shallow embedding of the page script: the DOM it touches is an explicit
    state ([World]), every function of the script is a computation in a state
    monad with JavaScript exceptions, and the browser (timers, animation
    frames, the intersection observer) is a set of stimuli that run the
    script's callbacks.

    - Page elements are numbered; their class list, inline style, geometry and
      [href] live in one store, so that two references to one element see the
      same state.
    - The notification elements [showNotification] creates live in a store of
      their own, with the list of those attached to the document in document
      order; [document.querySelector('.notification')] is the head of that
      list.
    - Scroll offsets are rationals (every finite JavaScript number is one);
      the script only compares them and halves them.
    - The values typed into the form are sequences of UTF-16 code units; the
      string literals of the script are [string]s.
    - [debounce] and [throttle] at the end of the file are called by nothing
      in the script and are left out. *)

From Stdlib Require Import QArith.
From stdpp Require Import gmap strings list pretty.

Open Scope string_scope.
Open Scope list_scope.

#[local] Set Warnings "-clear-no-such-hyp".

(** * JavaScript strings typed by the user

    The values of the form inputs are JavaScript strings: sequences of UTF-16
    code units.  The regular expression of the script has no [u] flag, so it
    works on code units. *)

Definition jsstring := list N.

(** [\s] of an ECMAScript regular expression: WhiteSpace and LineTerminator
    code points. *)
Definition is_js_space (c : N) : bool :=
  ((9 <=? c) && (c <=? 13) || (c =? 32) || (c =? 160) || (c =? 5760)
   || (8192 <=? c) && (c <=? 8202)
   || (c =? 8232) || (c =? 8233) || (c =? 8239) || (c =? 8287)
   || (c =? 12288) || (c =? 65279))%N.

(** The code units of an ASCII literal. *)
Definition js (s : string) : jsstring :=
  (λ a, Ascii.N_of_ascii a) <$> String.list_ascii_of_string s.

(** [!s] for a string [s]: only the empty string is falsy. *)
Definition js_not (s : jsstring) : bool :=
  match s with [] => true | _ => false end.

(** * Regular expressions *)

Module Regex.

(** The part of the regular expression syntax that [/^[^\s@]+@[^\s@]+\.[^\s@]+$/]
    uses, closed under derivatives. *)
Inductive re : Type :=
| Void
| Eps
| Sym (p : N → bool)
| Seq (r s : re)
| Alt (r s : re)
| Star (r : re).

(** [r+] *)
Definition Plus (r : re) : re := Seq r (Star r).

(** a literal character *)
Definition Chr (c : N) : re := Sym (N.eqb c).

(** the items of a character class *)
Inductive item := ISpace | IChar (c : N).

Definition item_has (c : N) (i : item) : bool :=
  match i with
  | ISpace => is_js_space c
  | IChar d => N.eqb d c
  end.

(** [[^...]] *)
Definition NotIn (items : list item) : re :=
  Sym (λ c, negb (existsb (item_has c) items)).

Fixpoint nullable (r : re) : bool :=
  match r with
  | Void => false
  | Eps => true
  | Sym _ => false
  | Seq r s => nullable r && nullable s
  | Alt r s => nullable r || nullable s
  | Star _ => true
  end.

Fixpoint deriv (c : N) (r : re) : re :=
  match r with
  | Void => Void
  | Eps => Void
  | Sym p => if p c then Eps else Void
  | Seq r s =>
      if nullable r then Alt (Seq (deriv c r) s) (deriv c s)
      else Seq (deriv c r) s
  | Alt r s => Alt (deriv c r) (deriv c s)
  | Star r => Seq (deriv c r) (Star r)
  end.

(** [/^r$/.test(s)]: the anchors make the match cover the whole string. *)
Fixpoint test (r : re) (s : jsstring) : bool :=
  match s with
  | [] => nullable r
  | c :: s => test (deriv c r) s
  end.

(** The words a regular expression denotes. *)
Inductive lang : re → jsstring → Prop :=
| lang_eps : lang Eps []
| lang_sym p c : p c = true → lang (Sym p) [c]
| lang_seq r s u v : lang r u → lang s v → lang (Seq r s) (u ++ v)
| lang_alt_l r s u : lang r u → lang (Alt r s) u
| lang_alt_r r s u : lang s u → lang (Alt r s) u
| lang_star_nil r : lang (Star r) []
| lang_star_app r u v : lang r u → lang (Star r) v → lang (Star r) (u ++ v).

End Regex.

(** [emailRegex] of [handleFormSubmit]. *)
Definition emailRegex : Regex.re :=
  let part := Regex.Plus (Regex.NotIn [Regex.ISpace; Regex.IChar 64]) in
  Regex.Seq part
    (Regex.Seq (Regex.Chr 64) (Regex.Seq part (Regex.Seq (Regex.Chr 46) part))).

(** What the pattern asks of an address: [a@b.c] with [a], [b], [c] non-empty
    and free of white space and of [@]. *)
Definition email_char (c : N) : Prop := is_js_space c = false ∧ c ≠ 64%N.

Definition email_shape (s : jsstring) : Prop :=
  ∃ a b c : jsstring,
    s = a ++ 64%N :: b ++ 46%N :: c
    ∧ a ≠ [] ∧ b ≠ [] ∧ c ≠ []
    ∧ Forall email_char a ∧ Forall email_char b ∧ Forall email_char c.

(** * The page and the browser *)

(** ** JavaScript numbers read from the window

    A scroll offset is a finite number; [None] is [undefined] (a browser
    without [window.scrollY]). *)

Definition number := option Q.

(** [a || b] on numbers: [undefined] and [0] are falsy. *)
Definition js_or (a b : number) : number :=
  match a with
  | Some q => if Qeq_bool q 0 then b else a
  | None => b
  end.

(** [a > b] and [a < b]; a comparison with [undefined] is false. *)
Definition js_gt (a : number) (b : Q) : bool :=
  match a with
  | Some q => negb (Qle_bool q b)
  | None => false
  end.

Definition js_lt (a : number) (b : Q) : bool :=
  match a with
  | Some q => negb (Qle_bool b q)
  | None => false
  end.

(** ** Elements *)

(** The value of an inline style declaration: text, or a number of pixels
    (the template literal of [handleParallax], kept as the number). *)
Inductive css : Type :=
| Txt (s : string)
| Px (q : Q).

Record Element : Type := mkElement {
  classList : gset string;
  style : gmap string css;
  offsetTop : Z;
  offsetHeight : Z;
  (** [getAttribute('href')] *)
  href : option string
}.

Definition blank : Element :=
  {| classList := ∅; style := ∅; offsetTop := 0; offsetHeight := 0; href := None |}.

Definition with_classList (c : gset string) (e : Element) : Element :=
  {| classList := c; style := style e; offsetTop := offsetTop e;
     offsetHeight := offsetHeight e; href := href e |}.

Definition with_style (s : gmap string css) (e : Element) : Element :=
  {| classList := classList e; style := s; offsetTop := offsetTop e;
     offsetHeight := offsetHeight e; href := href e |}.

(** [style.prop = v]: the empty string removes the declaration. *)
Definition style_assign (prop v : string) (s : gmap string css) : gmap string css :=
  if decide (v = "") then delete prop s else <[prop := Txt v]> s.

(** An input of the form and the form: [reset()] puts every field back to its
    default value. *)
Record Input : Type := mkInput {
  value : jsstring;
  defaultValue : jsstring
}.

Record Form : Type := mkForm {
  (** [querySelector('input[type="text"]')] *)
  text_input : option Input;
  (** [querySelector('input[type="email"]')] *)
  email_input : option Input
}.

Definition Input_reset (i : Input) : Input :=
  {| value := defaultValue i; defaultValue := defaultValue i |}.

Definition Form_reset (f : Form) : Form :=
  {| text_input := Input_reset <$> text_input f;
     email_input := Input_reset <$> email_input f |}.

(** A notification element made by [showNotification]. *)
Record Notification : Type := mkNotification {
  className : string;
  innerHTML : string;
  nstyle : gmap string css
}.

(** ** The document, the window, [elements] and [config] *)

Inductive QueryResult : Type :=
| Found (i : nat)
| NotFound
| BadSelector.

Record ElementRefs : Type := mkElementRefs {
  header : option nat;
  backToTop : option nat;
  modal : option nat;
  modalOverlay : option nat;
  modalClose : option nat;
  modalTriggers : list nat;
  bannerLetters : list nat
}.

Record Document : Type := mkDocument {
  (** [elements.modal.querySelector('.modal__input')] *)
  modal_input : option nat;
  (** [document.querySelector('.hero')] *)
  hero : option nat;
  (** [querySelectorAll('.app-features__item, .cta-section__card, .footer__container > *')] *)
  animatedElements : list nat;
  (** [querySelectorAll('a[href^="#"]')] *)
  anchors : list nat;
  (** [document.querySelector] on the selector of an anchor; an invalid
      selector makes it throw *)
  querySelector : string → QueryResult
}.

Record Window : Type := mkWindow {
  scrollY : number;
  pageYOffset : number;
  innerHeight : Z;
  (** ['IntersectionObserver' in window] *)
  has_IntersectionObserver : bool
}.

Record Config : Type := mkConfig {
  scrollThreshold : Q;
  animationDelay : nat;
  intersectionThreshold : Q
}.

Definition config : Config :=
  {| scrollThreshold := 100; animationDelay := 100; intersectionThreshold := 2 # 10 |}.

(** ** Timers, listeners, effects *)

Inductive Callback : Type :=
| (** [() => firstInput.focus()] *)
  CbFocus (i : nat)
| (** [closeModal] *)
  CbCloseModal
| (** the callback [showNotification] schedules after 3000 ms *)
  CbFade (n : nat)
| (** [() => notification.remove()] *)
  CbDetach (n : nat).

Record Timer : Type := mkTimer {
  callback : Callback;
  delay : nat
}.

Inductive Target : Type :=
| TWindow
| TDocument
| TForm
| TElem (i : nat).

Inductive Handler : Type :=
| HScroll
| HScrollToTop
| HOpenModal
| HCloseModal
| HFormSubmit
| HKeyboard
| HAnchorClick
| HLetterEnter
| HLetterLeave.

Record Listener : Type := mkListener {
  l_target : Target;
  l_type : string;
  l_handler : Handler
}.

Record ScrollToOptions : Type := mkScrollTo {
  top : Z;
  behavior : string
}.

Inductive LogLine : Type :=
| LogFormSubmitted (name email : jsstring)
| LogInitialized.

Record Entry : Type := mkEntry {
  target : nat;
  isIntersecting : bool
}.

Record World : Type := mkWorld {
  (** the [elements] object: references resolved once at startup *)
  elements : ElementRefs;
  (** what the document answers to the script's queries *)
  document : Document;
  (** scroll position and viewport *)
  window : Window;
  (** the state of the page elements *)
  elems : gmap nat Element;
  (** [elements.waitlistForm] and the state of its fields *)
  waitlistForm : option Form;
  (** [document.body.style.overflow] *)
  body_overflow : string;
  (** the notification elements created so far *)
  nodes : gmap nat Notification;
  (** the next element [document.createElement] returns *)
  next_node : nat;
  (** the elements of the document that match [.notification], in document order *)
  body_notifications : list nat;
  (** the [style] elements appended to [document.head] *)
  head_styles : list string;
  (** [document.activeElement] *)
  focused : option nat;
  (** the targets of the intersection observer *)
  observed : gset nat;
  (** pending [setTimeout] callbacks *)
  timers : list Timer;
  (** pending [requestAnimationFrame] callbacks *)
  frames : nat;
  (** the [ticking] flag of [initEventListeners] *)
  ticking : bool;
  (** registered event listeners *)
  listeners : list Listener;
  (** the calls of [window.scrollTo] *)
  scrollTo_calls : list ScrollToOptions;
  (** the lines of [console.log] *)
  console : list LogLine;
  (** [event.defaultPrevented] of the event being dispatched *)
  defaultPrevented : bool
}.

(** Field updates. *)

Definition set_elems (x : gmap nat Element) (w : World) : World :=
  {| elements := elements w; document := document w; window := window w; elems := x;
     waitlistForm := waitlistForm w; body_overflow := body_overflow w; nodes := nodes w;
     next_node := next_node w; body_notifications := body_notifications w; head_styles
     := head_styles w; focused := focused w; observed := observed w; timers := timers w;
     frames := frames w; ticking := ticking w; listeners := listeners w; scrollTo_calls
     := scrollTo_calls w; console := console w; defaultPrevented := defaultPrevented w |}.

Definition set_waitlistForm (x : option Form) (w : World) : World :=
  {| elements := elements w; document := document w; window := window w; elems := elems
     w; waitlistForm := x; body_overflow := body_overflow w; nodes := nodes w; next_node
     := next_node w; body_notifications := body_notifications w; head_styles :=
     head_styles w; focused := focused w; observed := observed w; timers := timers w;
     frames := frames w; ticking := ticking w; listeners := listeners w; scrollTo_calls
     := scrollTo_calls w; console := console w; defaultPrevented := defaultPrevented w |}.

Definition set_body_overflow (x : string) (w : World) : World :=
  {| elements := elements w; document := document w; window := window w; elems := elems
     w; waitlistForm := waitlistForm w; body_overflow := x; nodes := nodes w; next_node
     := next_node w; body_notifications := body_notifications w; head_styles :=
     head_styles w; focused := focused w; observed := observed w; timers := timers w;
     frames := frames w; ticking := ticking w; listeners := listeners w; scrollTo_calls
     := scrollTo_calls w; console := console w; defaultPrevented := defaultPrevented w |}.

Definition set_nodes (x : gmap nat Notification) (w : World) : World :=
  {| elements := elements w; document := document w; window := window w; elems := elems
     w; waitlistForm := waitlistForm w; body_overflow := body_overflow w; nodes := x;
     next_node := next_node w; body_notifications := body_notifications w; head_styles
     := head_styles w; focused := focused w; observed := observed w; timers := timers w;
     frames := frames w; ticking := ticking w; listeners := listeners w; scrollTo_calls
     := scrollTo_calls w; console := console w; defaultPrevented := defaultPrevented w |}.

Definition set_next_node (x : nat) (w : World) : World :=
  {| elements := elements w; document := document w; window := window w; elems := elems
     w; waitlistForm := waitlistForm w; body_overflow := body_overflow w; nodes := nodes
     w; next_node := x; body_notifications := body_notifications w; head_styles :=
     head_styles w; focused := focused w; observed := observed w; timers := timers w;
     frames := frames w; ticking := ticking w; listeners := listeners w; scrollTo_calls
     := scrollTo_calls w; console := console w; defaultPrevented := defaultPrevented w |}.

Definition set_body_notifications (x : list nat) (w : World) : World :=
  {| elements := elements w; document := document w; window := window w; elems := elems
     w; waitlistForm := waitlistForm w; body_overflow := body_overflow w; nodes := nodes
     w; next_node := next_node w; body_notifications := x; head_styles := head_styles w;
     focused := focused w; observed := observed w; timers := timers w; frames := frames
     w; ticking := ticking w; listeners := listeners w; scrollTo_calls := scrollTo_calls
     w; console := console w; defaultPrevented := defaultPrevented w |}.

Definition set_head_styles (x : list string) (w : World) : World :=
  {| elements := elements w; document := document w; window := window w; elems := elems
     w; waitlistForm := waitlistForm w; body_overflow := body_overflow w; nodes := nodes
     w; next_node := next_node w; body_notifications := body_notifications w;
     head_styles := x; focused := focused w; observed := observed w; timers := timers w;
     frames := frames w; ticking := ticking w; listeners := listeners w; scrollTo_calls
     := scrollTo_calls w; console := console w; defaultPrevented := defaultPrevented w |}.

Definition set_focused (x : option nat) (w : World) : World :=
  {| elements := elements w; document := document w; window := window w; elems := elems
     w; waitlistForm := waitlistForm w; body_overflow := body_overflow w; nodes := nodes
     w; next_node := next_node w; body_notifications := body_notifications w;
     head_styles := head_styles w; focused := x; observed := observed w; timers :=
     timers w; frames := frames w; ticking := ticking w; listeners := listeners w;
     scrollTo_calls := scrollTo_calls w; console := console w; defaultPrevented :=
     defaultPrevented w |}.

Definition set_observed (x : gset nat) (w : World) : World :=
  {| elements := elements w; document := document w; window := window w; elems := elems
     w; waitlistForm := waitlistForm w; body_overflow := body_overflow w; nodes := nodes
     w; next_node := next_node w; body_notifications := body_notifications w;
     head_styles := head_styles w; focused := focused w; observed := x; timers := timers
     w; frames := frames w; ticking := ticking w; listeners := listeners w;
     scrollTo_calls := scrollTo_calls w; console := console w; defaultPrevented :=
     defaultPrevented w |}.

Definition set_timers (x : list Timer) (w : World) : World :=
  {| elements := elements w; document := document w; window := window w; elems := elems
     w; waitlistForm := waitlistForm w; body_overflow := body_overflow w; nodes := nodes
     w; next_node := next_node w; body_notifications := body_notifications w;
     head_styles := head_styles w; focused := focused w; observed := observed w; timers
     := x; frames := frames w; ticking := ticking w; listeners := listeners w;
     scrollTo_calls := scrollTo_calls w; console := console w; defaultPrevented :=
     defaultPrevented w |}.

Definition set_frames (x : nat) (w : World) : World :=
  {| elements := elements w; document := document w; window := window w; elems := elems
     w; waitlistForm := waitlistForm w; body_overflow := body_overflow w; nodes := nodes
     w; next_node := next_node w; body_notifications := body_notifications w;
     head_styles := head_styles w; focused := focused w; observed := observed w; timers
     := timers w; frames := x; ticking := ticking w; listeners := listeners w;
     scrollTo_calls := scrollTo_calls w; console := console w; defaultPrevented :=
     defaultPrevented w |}.

Definition set_ticking (x : bool) (w : World) : World :=
  {| elements := elements w; document := document w; window := window w; elems := elems
     w; waitlistForm := waitlistForm w; body_overflow := body_overflow w; nodes := nodes
     w; next_node := next_node w; body_notifications := body_notifications w;
     head_styles := head_styles w; focused := focused w; observed := observed w; timers
     := timers w; frames := frames w; ticking := x; listeners := listeners w;
     scrollTo_calls := scrollTo_calls w; console := console w; defaultPrevented :=
     defaultPrevented w |}.

Definition set_listeners (x : list Listener) (w : World) : World :=
  {| elements := elements w; document := document w; window := window w; elems := elems
     w; waitlistForm := waitlistForm w; body_overflow := body_overflow w; nodes := nodes
     w; next_node := next_node w; body_notifications := body_notifications w;
     head_styles := head_styles w; focused := focused w; observed := observed w; timers
     := timers w; frames := frames w; ticking := ticking w; listeners := x;
     scrollTo_calls := scrollTo_calls w; console := console w; defaultPrevented :=
     defaultPrevented w |}.

Definition set_scrollTo_calls (x : list ScrollToOptions) (w : World) : World :=
  {| elements := elements w; document := document w; window := window w; elems := elems
     w; waitlistForm := waitlistForm w; body_overflow := body_overflow w; nodes := nodes
     w; next_node := next_node w; body_notifications := body_notifications w;
     head_styles := head_styles w; focused := focused w; observed := observed w; timers
     := timers w; frames := frames w; ticking := ticking w; listeners := listeners w;
     scrollTo_calls := x; console := console w; defaultPrevented := defaultPrevented w |}.

Definition set_console (x : list LogLine) (w : World) : World :=
  {| elements := elements w; document := document w; window := window w; elems := elems
     w; waitlistForm := waitlistForm w; body_overflow := body_overflow w; nodes := nodes
     w; next_node := next_node w; body_notifications := body_notifications w;
     head_styles := head_styles w; focused := focused w; observed := observed w; timers
     := timers w; frames := frames w; ticking := ticking w; listeners := listeners w;
     scrollTo_calls := scrollTo_calls w; console := x; defaultPrevented :=
     defaultPrevented w |}.

Definition set_defaultPrevented (x : bool) (w : World) : World :=
  {| elements := elements w; document := document w; window := window w; elems := elems
     w; waitlistForm := waitlistForm w; body_overflow := body_overflow w; nodes := nodes
     w; next_node := next_node w; body_notifications := body_notifications w;
     head_styles := head_styles w; focused := focused w; observed := observed w; timers
     := timers w; frames := frames w; ticking := ticking w; listeners := listeners w;
     scrollTo_calls := scrollTo_calls w; console := console w; defaultPrevented := x |}.

(** ** Computations of the script: state and exceptions *)

Inductive Exn : Type :=
| TypeError
| SyntaxError.

Inductive Outcome (A : Type) : Type :=
| Ok (a : A) (w : World)
| Throw (e : Exn) (w : World).

Arguments Ok {A} a w.
Arguments Throw {A} e w.

Definition M (A : Type) : Type := World → Outcome A.

#[global] Instance M_ret : MRet M := λ A a w, Ok a w.

#[global] Instance M_bind : MBind M := λ A B f m w,
  match m w with
  | Ok a w' => f a w'
  | Throw e w' => Throw e w'
  end.

Definition throw {A : Type} (e : Exn) : M A := λ w, Throw e w.

Definition gets {A : Type} (f : World → A) : M A := λ w, Ok (f w) w.

Definition modify (f : World → World) : M unit := λ w, Ok tt (f w).

(** The world a computation leaves, returned or thrown. *)
Definition world_of {A : Type} (o : Outcome A) : World :=
  match o with
  | Ok _ w => w
  | Throw _ w => w
  end.

(** [x.member] where [x] may be [null]. *)
Definition deref (r : option nat) : M nat :=
  match r with
  | Some i => mret i
  | None => throw TypeError
  end.

(** [list.forEach((x, index) => ...)] *)
Fixpoint forEach_from {A : Type} (index : nat) (l : list A) (f : A → nat → M unit) : M unit :=
  match l with
  | [] => mret tt
  | x :: l => f x index ;; forEach_from (S index) l f
  end.

Definition forEach {A : Type} (l : list A) (f : A → nat → M unit) : M unit :=
  forEach_from 0 l f.

(** ** DOM primitives *)

Definition get_el (i : nat) (w : World) : Element := default blank (elems w !! i).

Definition update_el (i : nat) (f : Element → Element) : M unit :=
  modify (λ w, set_elems (<[i := f (get_el i w)]> (elems w)) w).

Definition classList_add (i : nat) (c : string) : M unit :=
  update_el i (λ e, with_classList ({[c]} ∪ classList e) e).

Definition classList_remove (i : nat) (c : string) : M unit :=
  update_el i (λ e, with_classList (classList e ∖ {[c]}) e).

Definition classList_contains (i : nat) (c : string) : M bool :=
  gets (λ w, bool_decide (c ∈ classList (get_el i w))).

(** The element [i] carries the class [c]. *)
Definition has_class (c : string) (i : nat) (w : World) : Prop :=
  c ∈ classList (get_el i w).

Definition el_style_assign (i : nat) (prop v : string) : M unit :=
  update_el i (λ e, with_style (style_assign prop v (style e)) e).

Definition setTimeout (cb : Callback) (ms : nat) : M unit :=
  modify (λ w, set_timers (timers w ++ [{| callback := cb; delay := ms |}]) w).

Definition addEventListener (t : Target) (type : string) (h : Handler) : M unit :=
  modify (λ w, set_listeners
    (listeners w ++ [{| l_target := t; l_type := type; l_handler := h |}]) w).

Definition preventDefault : M unit := modify (set_defaultPrevented true).

Definition window_scrollTo (o : ScrollToOptions) : M unit :=
  modify (λ w, set_scrollTo_calls (scrollTo_calls w ++ [o]) w).

Definition console_log (l : LogLine) : M unit :=
  modify (λ w, set_console (console w ++ [l]) w).

Definition head_appendChild (textContent : string) : M unit :=
  modify (λ w, set_head_styles (head_styles w ++ [textContent]) w).

(** [node.remove()]: detaches the node; no effect on a detached node. *)
Definition node_remove (n : nat) : M unit :=
  modify (λ w, set_body_notifications (filter (λ m, m ≠ n) (body_notifications w)) w).

Definition body_appendChild (n : nat) : M unit :=
  modify (λ w, set_body_notifications (filter (λ m, m ≠ n) (body_notifications w) ++ [n]) w).

Definition update_node (n : nat) (f : Notification → Notification) : M unit :=
  modify (λ w, set_nodes (alter f n (nodes w)) w).

Definition node_style_assign (n : nat) (prop v : string) : M unit :=
  update_node n (λ x, {| className := className x; innerHTML := innerHTML x;
                         nstyle := style_assign prop v (nstyle x) |}).

(** [window.scrollY || window.pageYOffset] *)
Definition read_scrollY : M number :=
  gets (λ w, js_or (scrollY (window w)) (pageYOffset (window w))).

(** * The script *)

(** ** Header scroll behaviour and back-to-top button *)

Definition handleHeaderScroll : M unit :=
  scrollY ← read_scrollY;
  if js_gt scrollY (scrollThreshold config) then
    h ← gets (λ w, header (elements w)) ≫= deref;
    classList_add h "header--scrolled"
  else
    h ← gets (λ w, header (elements w)) ≫= deref;
    classList_remove h "header--scrolled".

Definition handleBackToTopVisibility : M unit :=
  scrollY ← read_scrollY;
  if js_gt scrollY (scrollThreshold config * 3) then
    b ← gets (λ w, backToTop (elements w)) ≫= deref;
    classList_add b "footer__back-to-top--visible"
  else
    b ← gets (λ w, backToTop (elements w)) ≫= deref;
    classList_remove b "footer__back-to-top--visible".

Definition scrollToTop : M unit :=
  window_scrollTo {| top := 0; behavior := "smooth" |}.

(** ** Modal *)

Definition openModal : M unit :=
  m ← gets (λ w, modal (elements w)) ≫= deref;
  classList_add m "modal--active";;
  modify (set_body_overflow "hidden");;
  firstInput ← gets (λ w, modal_input (document w));
  match firstInput with
  | Some i => setTimeout (CbFocus i) 300
  | None => mret tt
  end.

Definition closeModal : M unit :=
  m ← gets (λ w, modal (elements w)) ≫= deref;
  classList_remove m "modal--active";;
  modify (set_body_overflow "").

(** ** Notifications *)

Definition dq : string := String (Ascii.ascii_of_nat 34) EmptyString.

Definition notification_className (type : string) : string :=
  "notification notification--" +:+ type.

Definition notification_innerHTML (message : string) : string :=
  "
            <span class=" +:+ dq +:+ "notification__message" +:+ dq +:+ ">"
  +:+ message +:+ "</span>
        ".

(** The declarations of [notification.style.cssText]. *)
Definition notification_cssText (type : string) : gmap string css :=
  list_to_map
    [("position", Txt "fixed");
     ("top", Txt "20px");
     ("left", Txt "50%");
     ("transform", Txt "translateX(-50%)");
     ("padding", Txt "15px 25px");
     ("background", Txt (if decide (type = "success") then "#4cd137" else "#ff6b6b"));
     ("color", Txt "white");
     ("border-radius", Txt "10px");
     ("font-weight", Txt "600");
     ("z-index", Txt "2000");
     ("animation", Txt "slideDown 0.3s ease");
     ("box-shadow", Txt "0 5px 20px rgba(0, 0, 0, 0.2)")].

Definition slideDown_keyframes : string :=
  "
            @keyframes slideDown {
                from {
                    opacity: 0;
                    transform: translateX(-50%) translateY(-20px);
                }
                to {
                    opacity: 1;
                    transform: translateX(-50%) translateY(0);
                }
            }
        ".

(** [document.createElement('div')] with the class, the content and the
    style [showNotification] gives it. *)
Definition createNotification (message type : string) : M nat :=
  n ← gets next_node;
  modify (λ w, set_next_node (S n) (set_nodes
    (<[n := {| className := notification_className type;
               innerHTML := notification_innerHTML message;
               nstyle := notification_cssText type |}]> (nodes w)) w));;
  mret n.

(** [type] is optional and defaults to ['success']. *)
Definition showNotification (message : string) (type_arg : option string) : M unit :=
  let type := default "success" type_arg in
  existingNotification ← gets (λ w, head (body_notifications w));
  match existingNotification with
  | Some n => node_remove n
  | None => mret tt
  end;;
  notification ← createNotification message type;
  head_appendChild slideDown_keyframes;;
  body_appendChild notification;;
  setTimeout (CbFade notification) 3000.

(** ** Form submission *)

(** [event.target.querySelector(...).value]; [event.target] is the waitlist
    form, the only element the handler is attached to. *)
Definition target_value (field : Form → option Input) : M jsstring :=
  f ← gets waitlistForm;
  match f ≫= field with
  | Some i => mret (value i)
  | None => throw TypeError
  end.

Definition target_reset : M unit :=
  modify (λ w, set_waitlistForm (Form_reset <$> waitlistForm w) w).

Definition handleFormSubmit : M unit :=
  preventDefault;;
  name ← target_value text_input;
  email ← target_value email_input;
  if js_not name || js_not email then
    showNotification "Please fill in all fields" (Some "error")
  else if negb (Regex.test emailRegex email) then
    showNotification "Please enter a valid email address" (Some "error")
  else
    console_log (LogFormSubmitted name email);;
    showNotification "Welcome to the Mojik family! 🎉" (Some "success");;
    target_reset;;
    setTimeout CbCloseModal 1500.

(** ** Scroll animations *)

Definition animate_in_css : string :=
  "
            .animate-in {
                opacity: 1 !important;
                transform: translateY(0) !important;
            }
        ".

Definition observe (i : nat) : M unit :=
  modify (λ w, set_observed ({[i]} ∪ observed w) w).

Definition unobserve (i : nat) : M unit :=
  modify (λ w, set_observed (observed w ∖ {[i]}) w).

(** What the callback given to [new IntersectionObserver] does with one
    entry of a batch. *)
Definition reveal (entry : Entry) (index : nat) : M unit :=
  if isIntersecting entry then
    el_style_assign (target entry) "animation-delay"
      (pretty (index * animationDelay config)%nat +:+ "ms");;
    classList_add (target entry) "animate-in";;
    unobserve (target entry)
  else mret tt.

(** The callback given to [new IntersectionObserver]. *)
Definition observer_callback (entries : list Entry) : M unit :=
  forEach entries reveal.

Definition setupScrollAnimations : M unit :=
  supported ← gets (λ w, has_IntersectionObserver (window w));
  if negb supported then mret tt
  else
    animated ← gets (λ w, animatedElements (document w));
    forEach animated (λ el _,
      el_style_assign el "opacity" "0";;
      el_style_assign el "transform" "translateY(20px)";;
      el_style_assign el "transition" "opacity 0.5s ease, transform 0.5s ease";;
      observe el);;
    head_appendChild animate_in_css.

(** ** Smooth scroll for anchor links *)

(** The click listener of an anchor; [this] is the anchor. *)
Definition anchor_click (this : nat) : M unit :=
  targetId ← gets (λ w, href (get_el this w));
  if decide (targetId = Some "#") then mret tt
  else
    q ← gets (λ w, querySelector (document w) (default "null" targetId));
    match q with
    | BadSelector => throw SyntaxError
    | NotFound => mret tt
    | Found targetElement =>
        preventDefault;;
        h ← gets (λ w, header (elements w)) ≫= deref;
        headerHeight ← gets (λ w, offsetHeight (get_el h w));
        t ← gets (λ w, offsetTop (get_el targetElement w));
        let targetPosition := (t - headerHeight)%Z in
        window_scrollTo {| top := targetPosition; behavior := "smooth" |}
    end.

Definition setupSmoothScroll : M unit :=
  l ← gets (λ w, anchors (document w));
  forEach l (λ anchor _, addEventListener (TElem anchor) "click" HAnchorClick).

(** ** Keyboard, parallax, banner letters *)

Definition handleKeyboard (key : string) : M unit :=
  if decide (key = "Escape") then
    m ← gets (λ w, modal (elements w)) ≫= deref;
    active ← classList_contains m "modal--active";
    if active : bool then closeModal else mret tt
  else mret tt.

Definition handleParallax : M unit :=
  scrollY ← read_scrollY;
  hero ← gets (λ w, hero (document w));
  h ← gets (λ w, innerHeight (window w));
  match hero, scrollY with
  | Some i, Some y =>
      if js_lt scrollY (inject_Z h) then
        let speed : Q := 1 # 2 in
        update_el i (λ e, with_style (<["background-position-y" := Px (y * speed)]> (style e)) e)
      else mret tt
  | _, _ => mret tt
  end.

Definition letter_mouseenter (this : nat) : M unit :=
  el_style_assign this "transform" "scale(1.3) rotate(-10deg)".

Definition letter_mouseleave (this : nat) : M unit :=
  el_style_assign this "transform" "".

Definition setupBannerInteraction : M unit :=
  l ← gets (λ w, bannerLetters (elements w));
  forEach l (λ letter _,
    addEventListener (TElem letter) "mouseenter" HLetterEnter;;
    addEventListener (TElem letter) "mouseleave" HLetterLeave).

(** ** Event listeners and initialization *)

(** The callback given to [requestAnimationFrame]. *)
Definition frame_callback : M unit :=
  handleHeaderScroll;;
  handleBackToTopVisibility;;
  handleParallax;;
  modify (set_ticking false).

(** The scroll listener. *)
Definition scroll_listener : M unit :=
  t ← gets ticking;
  if negb t then
    modify (λ w, set_frames (S (frames w)) w);;
    modify (set_ticking true)
  else mret tt.

Definition when_present (r : option nat) (k : nat → M unit) : M unit :=
  match r with
  | Some i => k i
  | None => mret tt
  end.

Definition initEventListeners : M unit :=
  modify (set_ticking false);;
  addEventListener TWindow "scroll" HScroll;;
  b ← gets (λ w, backToTop (elements w));
  when_present b (λ i, addEventListener (TElem i) "click" HScrollToTop);;
  triggers ← gets (λ w, modalTriggers (elements w));
  forEach triggers (λ trigger _, addEventListener (TElem trigger) "click" HOpenModal);;
  c ← gets (λ w, modalClose (elements w));
  when_present c (λ i, addEventListener (TElem i) "click" HCloseModal);;
  o ← gets (λ w, modalOverlay (elements w));
  when_present o (λ i, addEventListener (TElem i) "click" HCloseModal);;
  f ← gets waitlistForm;
  match f with
  | Some _ => addEventListener TForm "submit" HFormSubmit
  | None => mret tt
  end;;
  addEventListener TDocument "keydown" HKeyboard.

Definition init : M unit :=
  initEventListeners;;
  setupScrollAnimations;;
  setupSmoothScroll;;
  setupBannerInteraction;;
  handleHeaderScroll;;
  handleBackToTopVisibility;;
  console_log LogInitialized.

(** * The browser running the script's callbacks *)

Definition run_callback (cb : Callback) : M unit :=
  match cb with
  | CbFocus i => modify (set_focused (Some i))
  | CbCloseModal => closeModal
  | CbFade n =>
      node_style_assign n "opacity" "0";;
      node_style_assign n "transform" "translateX(-50%) translateY(-20px)";;
      node_style_assign n "transition" "all 0.3s ease";;
      setTimeout (CbDetach n) 300
  | CbDetach n => node_remove n
  end.

(** The [k]-th pending timer fires. *)
Definition fire_timer (k : nat) : M unit :=
  t ← gets (λ w, timers w !! k);
  match t with
  | Some t => modify (λ w, set_timers (delete k (timers w)) w);; run_callback (callback t)
  | None => mret tt
  end.

(** A pending animation frame callback runs. *)
Definition run_frame : M unit :=
  n ← gets frames;
  match n with
  | S n => modify (set_frames n);; frame_callback
  | O => mret tt
  end.

(** A listener runs for an event; [key] is [event.key]. *)
Definition dispatch (l : Listener) (key : string) : M unit :=
  modify (set_defaultPrevented false);;
  match l_handler l, l_target l with
  | HScroll, _ => scroll_listener
  | HScrollToTop, _ => scrollToTop
  | HOpenModal, _ => openModal
  | HCloseModal, _ => closeModal
  | HFormSubmit, _ => handleFormSubmit
  | HKeyboard, _ => handleKeyboard key
  | HAnchorClick, TElem this => anchor_click this
  | HLetterEnter, TElem this => letter_mouseenter this
  | HLetterLeave, TElem this => letter_mouseleave this
  | _, _ => mret tt
  end.

(** * The browser's stimuli *)

(** Everything the browser can make the script do once [init] has run. *)
Inductive Stimulus : Type :=
| SEvent (l : Listener) (key : string)
| STimer (k : nat)
| SFrame
| SIntersections (entries : list Entry).

Definition react (s : Stimulus) : M unit :=
  match s with
  | SEvent l key => dispatch l key
  | STimer k => fire_timer k
  | SFrame => run_frame
  | SIntersections entries => observer_callback entries
  end.

(** The page after a sequence of stimuli; an exception ends a callback, not
    the page. *)
Definition run_stimuli (l : list Stimulus) (w : World) : World :=
  foldl (λ w s, world_of (react s w)) w l.

(** What the page sees of the notification system: calls of
    [showNotification] and pending timers that fire, in any order. *)
Inductive Action : Type :=
| Notify (message : string) (type : option string)
| TimerFires (k : nat).

Definition run_action (a : Action) : M unit :=
  match a with
  | Notify message type => showNotification message type
  | TimerFires k => fire_timer k
  end.

(** An exception thrown by a callback ends the callback, not the page. *)
Definition run_actions (l : list Action) (w : World) : World :=
  foldl (λ w a, world_of (run_action a w)) w l.

(** The batches the browser delivers, one after the other. *)
Definition run_batches (bs : list (list Entry)) (w : World) : World :=
  foldl (λ w b, world_of (observer_callback b w)) w bs.

(** The browser reports intersections of observed targets only. *)
Fixpoint delivered (bs : list (list Entry)) (w : World) : Prop :=
  match bs with
  | [] => True
  | b :: bs =>
      (∀ e, e ∈ b → target e ∈ observed w)
      ∧ delivered bs (world_of (observer_callback b w))
  end.

(** * Vocabulary of the properties *)

(** The world a computation leaves, returned or thrown, is related to the
    world it started from. *)
Definition preserves (R : World → World → Prop) {A : Type} (m : M A) : Prop :=
  ∀ w, R w (world_of (m w)).

(** The head only grows. *)
Definition head_grows (w w' : World) : Prop := head_styles w `prefix_of` head_styles w'.

(** The notification slot holds at most one element. *)
Definition slot_kept (w w' : World) : Prop :=
  (length (body_notifications w) ≤ 1)%nat → (length (body_notifications w') ≤ 1)%nat.

Definition focus_timers (w : World) : list Timer :=
  match modal_input (document w) with
  | Some i => [{| callback := CbFocus i; delay := 300 |}]
  | None => []
  end.

(** The message and the type of the most recent call. *)
Fixpoint last_call (l : list Action) : option (string * string) :=
  match l with
  | [] => None
  | a :: l =>
      match last_call l, a with
      | Some c, _ => Some c
      | None, Notify message type => Some (message, default "success" type)
      | None, TimerFires _ => None
      end
  end.

Fixpoint count_calls (l : list Action) : nat :=
  match l with
  | [] => 0
  | Notify _ _ :: l => S (count_calls l)
  | TimerFires _ :: l => count_calls l
  end.

Definition new_notification (message type : string) : Notification :=
  {| className := notification_className type;
     innerHTML := notification_innerHTML message;
     nstyle := notification_cssText type |}.

(** The element [n] of the world is a notification that shows [message] with
    the kind [type]: its class, its content (character 34 is the double
    quote) and its background colour. *)
Definition notification_of (message type : string) (n : nat) (w : World) : Prop :=
  ∃ x, nodes w !! n = Some x
       ∧ className x = "notification notification--" +:+ type
       ∧ innerHTML x = "
            <span class=" +:+ String (Ascii.ascii_of_nat 34) "notification__message"
                      +:+ String (Ascii.ascii_of_nat 34) ">" +:+ message +:+ "</span>
        "
       ∧ nstyle x !! "background"
         = Some (Txt (if decide (type = "success") then "#4cd137" else "#ff6b6b")).

(** What one call of [showNotification] for [message] and [type] has left:
    one new element, alone in the document, and one more [style] in the head. *)
Definition notified (message type : string) (w w' : World) : Prop :=
  next_node w' = S (next_node w)
  ∧ body_notifications w' = [next_node w]
  ∧ notification_of message type (next_node w) w'
  ∧ head_styles w' = head_styles w ++ [slideDown_keyframes].

(** The number of intersecting entries before position [i]. *)
Definition intersecting_before (i : nat) (entries : list Entry) : nat :=
  length (filter (λ e, isIntersecting e = true) (take i entries)).

Definition animation_delay (i : nat) (w : World) : option css :=
  style (get_el i w) !! "animation-delay".

(** The listener [setupSmoothScroll] attaches to the anchor [a]. *)
Definition anchor_listener (a : nat) : Listener :=
  {| l_target := TElem a; l_type := "click"; l_handler := HAnchorClick |}.

(** The selector the click handler of the anchor [a] resolves. *)
Definition anchor_selector (a : nat) (w : World) : string :=
  default "null" (href (get_el a w)).

(** The listener [initEventListeners] attaches to the waitlist form. *)
Definition submit_listener : Listener :=
  {| l_target := TForm; l_type := "submit"; l_handler := HFormSubmit |}.

(** The listeners [initEventListeners] attaches: none on an absent element. *)
Definition click_listener (h : Handler) (r : option nat) : list Listener :=
  match r with
  | Some i => [{| l_target := TElem i; l_type := "click"; l_handler := h |}]
  | None => []
  end.

Definition init_listeners (w : World) : list Listener :=
  [{| l_target := TWindow; l_type := "scroll"; l_handler := HScroll |}]
  ++ click_listener HScrollToTop (backToTop (elements w))
  ++ ((λ i, {| l_target := TElem i; l_type := "click"; l_handler := HOpenModal |})
        <$> modalTriggers (elements w))
  ++ click_listener HCloseModal (modalClose (elements w))
  ++ click_listener HCloseModal (modalOverlay (elements w))
  ++ (match waitlistForm w with Some _ => [submit_listener] | None => [] end)
  ++ [{| l_target := TDocument; l_type := "keydown"; l_handler := HKeyboard |}].

(** The inputs the page is documented to give: the waitlist form has its text
    and its email input, and the href of an anchor is a valid selector. *)
Definition documented (s : Stimulus) (w : World) : Prop :=
  match s with
  | SEvent l key =>
      match l_handler l, l_target l with
      | HFormSubmit, _ =>
          ∃ f name email,
            waitlistForm w = Some f ∧ text_input f = Some name ∧ email_input f = Some email
      | HAnchorClick, TElem a =>
          href (get_el a w) = Some "#"
          ∨ querySelector (document w) (anchor_selector a w) ≠ BadSelector
      | _, _ => True
      end
  | _ => True
  end.

(** The elements the script uses without a guard. *)
Definition required_present (w : World) : Prop :=
  is_Some (header (elements w))
  ∧ is_Some (backToTop (elements w))
  ∧ is_Some (modal (elements w)).

(** A computation that returns, and leaves [elements] alone, on every page
    that has the required elements. *)
Definition safe {A : Type} (m : M A) : Prop :=
  ∀ w, required_present w → ∃ a w', m w = Ok a w' ∧ elements w' = elements w.

(** * Example pages *)

(** A world for examples: a page with a header (0), a back-to-top button (1),
    a modal (2) with an input (3), scrolled to [y]. *)
Definition page_refs : ElementRefs :=
  {| header := Some 0; backToTop := Some 1; modal := Some 2; modalOverlay := None;
     modalClose := None; modalTriggers := []; bannerLetters := [] |}.

Definition page_doc : Document :=
  {| modal_input := Some 3; hero := None; animatedElements := []; anchors := [];
     querySelector := λ _, NotFound |}.

Definition page_at (y : Q) : World :=
  {| elements := page_refs; document := page_doc;
     window := {| scrollY := Some y; pageYOffset := Some y; innerHeight := 800;
                  has_IntersectionObserver := true |};
     elems := ∅; waitlistForm := None; body_overflow := ""; nodes := ∅; next_node := 0;
     body_notifications := []; head_styles := []; focused := None; observed := ∅;
     timers := []; frames := 0; ticking := false; listeners := []; scrollTo_calls := [];
     console := []; defaultPrevented := false |}.

(** A page with a header (0) of height 80, a section (5) at offset 900, an
    anchor (7) to [#features] that resolves to the section and an anchor (8)
    to [#gone] that resolves to nothing. *)
Definition page_with_anchors : World :=
  {| elements := page_refs;
     document :=
       {| modal_input := Some 3; hero := None; animatedElements := []; anchors := [7; 8];
          querySelector := λ s, if decide (s = "#features") then Found 5 else NotFound |};
     window := {| scrollY := Some 0%Q; pageYOffset := Some 0%Q; innerHeight := 800;
                  has_IntersectionObserver := true |};
     elems :=
       {[ 0 := {| classList := ∅; style := ∅; offsetTop := 0; offsetHeight := 80;
                  href := None |};
          5 := {| classList := ∅; style := ∅; offsetTop := 900; offsetHeight := 400;
                  href := None |};
          7 := {| classList := ∅; style := ∅; offsetTop := 10; offsetHeight := 20;
                  href := Some "#features" |};
          8 := {| classList := ∅; style := ∅; offsetTop := 10; offsetHeight := 20;
                  href := Some "#gone" |} ]};
     waitlistForm := None; body_overflow := ""; nodes := ∅; next_node := 0;
     body_notifications := []; head_styles := []; focused := None; observed := ∅;
     timers := []; frames := 0; ticking := false; listeners := []; scrollTo_calls := [];
     console := []; defaultPrevented := false |}.

(** The same page with a waitlist form holding [name] and [email]. *)
Definition page_with_form (name email : string) : World :=
  set_waitlistForm
    (Some {| text_input := Some {| value := js name; defaultValue := [] |};
             email_input := Some {| value := js email; defaultValue := [] |} |})
    (page_at 0).

(** The page of the examples without a header. *)
Definition page_without_header : World :=
  {| elements :=
       {| header := None; backToTop := Some 1; modal := Some 2; modalOverlay := None;
          modalClose := None; modalTriggers := []; bannerLetters := [] |};
     document := page_doc;
     window := {| scrollY := Some 0%Q; pageYOffset := Some 0%Q; innerHeight := 800;
                  has_IntersectionObserver := true |};
     elems := ∅; waitlistForm := None; body_overflow := ""; nodes := ∅; next_node := 0;
     body_notifications := []; head_styles := []; focused := None; observed := ∅;
     timers := []; frames := 0; ticking := false; listeners := []; scrollTo_calls := [];
     console := []; defaultPrevented := false |}.

(** A page with a hero (4), scrolled to [y]. *)
Definition page_with_hero (y : Q) : World :=
  {| elements := page_refs;
     document :=
       {| modal_input := Some 3; hero := Some 4; animatedElements := []; anchors := [];
          querySelector := λ _, NotFound |};
     window := {| scrollY := Some y; pageYOffset := Some y; innerHeight := 800;
                  has_IntersectionObserver := true |};
     elems := ∅; waitlistForm := None; body_overflow := ""; nodes := ∅; next_node := 0;
     body_notifications := []; head_styles := []; focused := None; observed := ∅;
     timers := []; frames := 0; ticking := false; listeners := []; scrollTo_calls := [];
     console := []; defaultPrevented := false |}.

(** [I] is kept from one world to the other. *)
Definition keeps (I : World → Prop) (w w' : World) : Prop := I w → I w'.

(** The scroll listener of [initEventListeners]. *)
Definition scroll_event : Stimulus :=
  SEvent {| l_target := TWindow; l_type := "scroll"; l_handler := HScroll |} "".

(** One animation frame callback is pending exactly while [ticking] is set. *)
Definition scroll_armed (w : World) : Prop :=
  frames w = if ticking w then 1 else 0.

Definition coalescing (w : World) : Prop := required_present w ∧ scroll_armed w.

(** The modal [m] carries [modal--active] exactly when the body's overflow is
    [hidden]. *)
Definition scroll_locked (m : nat) (w : World) : Prop :=
  modal (elements w) = Some m
  ∧ (has_class "modal--active" m w ↔ body_overflow w = "hidden").

(** The timers of notifications name elements that exist already. *)
Definition timers_fresh (w : World) : Prop :=
  ∀ t n, t ∈ timers w → callback t = CbFade n ∨ callback t = CbDetach n →
         (n < next_node w)%nat.

(** The style the fade callback leaves on a notification. *)
Definition faded (x : Notification) : Prop :=
  nstyle x !! "opacity" = Some (Txt "0")
  ∧ nstyle x !! "transform" = Some (Txt "translateX(-50%) translateY(-20px)")
  ∧ nstyle x !! "transition" = Some (Txt "all 0.3s ease").

(** The inline style [setupScrollAnimations] gives an element before it
    observes it. *)
Definition hidden_for_reveal (e : Element) : Prop :=
  style e !! "opacity" = Some (Txt "0")
  ∧ style e !! "transform" = Some (Txt "translateY(20px)")
  ∧ style e !! "transition" = Some (Txt "opacity 0.5s ease, transform 0.5s ease").

(** A page with two animated elements (20, 21), with or without
    [IntersectionObserver]. *)
Definition page_animated (supported : bool) : World :=
  {| elements := page_refs;
     document :=
       {| modal_input := Some 3; hero := None; animatedElements := [20; 21]; anchors := [];
          querySelector := λ _, NotFound |};
     window := {| scrollY := Some 0%Q; pageYOffset := Some 0%Q; innerHeight := 800;
                  has_IntersectionObserver := supported |};
     elems := ∅; waitlistForm := None; body_overflow := ""; nodes := ∅; next_node := 0;
     body_notifications := []; head_styles := []; focused := None; observed := ∅;
     timers := []; frames := 0; ticking := false; listeners := []; scrollTo_calls := [];
     console := []; defaultPrevented := false |}.

(** The two listeners [setupBannerInteraction] attaches to a letter. *)
Definition letter_listeners (i : nat) : list Listener :=
  [{| l_target := TElem i; l_type := "mouseenter"; l_handler := HLetterEnter |};
   {| l_target := TElem i; l_type := "mouseleave"; l_handler := HLetterLeave |}].

(** All the listeners of the page once [init] has run. *)
Definition all_listeners (w : World) : list Listener :=
  init_listeners w
  ++ (anchor_listener <$> anchors (document w))
  ++ (bannerLetters (elements w) ≫= letter_listeners).

(** A page with a form, an overlay (6), two triggers (9, 10), an anchor (7)
    and a letter (30), but no header. *)
Definition page_wired : World :=
  {| elements :=
       {| header := None; backToTop := Some 1; modal := Some 2; modalOverlay := Some 6;
          modalClose := None; modalTriggers := [9; 10]; bannerLetters := [30] |};
     document :=
       {| modal_input := Some 3; hero := None; animatedElements := [20]; anchors := [7];
          querySelector := λ _, NotFound |};
     window := {| scrollY := Some 0%Q; pageYOffset := Some 0%Q; innerHeight := 800;
                  has_IntersectionObserver := true |};
     elems := ∅;
     waitlistForm := Some {| text_input := Some {| value := []; defaultValue := [] |};
                             email_input := Some {| value := []; defaultValue := [] |} |};
     body_overflow := ""; nodes := ∅; next_node := 0;
     body_notifications := []; head_styles := []; focused := None; observed := ∅;
     timers := []; frames := 0; ticking := false; listeners := []; scrollTo_calls := [];
     console := []; defaultPrevented := false |}.

(** The number of [@] in a string. *)
Definition count_at (s : list N) : nat :=
  length (filter (λ c, c = 64%N) s).

(** * The utilities [debounce] and [throttle]

    The two utilities at the end of the file.  Each call of [debounce] or
    [throttle] makes a closure with a variable of its own; the state of one
    such closure is modelled, with the timers it has pending and the calls of
    [func] it has made, in order. *)

(** The state of a debounced function: the variable [timeout], the timers
    of [later] that are pending, each with the arguments it captured, the
    identifier the next [setTimeout] returns, and the arguments of the calls of
    [func] so far. *)
Record Debounced (Args : Type) : Type := mkDebounced {
  d_timeout : option nat;
  d_pending : gmap nat Args;
  d_next : nat;
  d_calls : list Args
}.
Arguments mkDebounced {Args} _ _ _ _.
Arguments d_timeout {Args} _.
Arguments d_pending {Args} _.
Arguments d_next {Args} _.
Arguments d_calls {Args} _.

(** [debounce(func, wait)]: [timeout] is undefined. *)
Definition debounce {Args : Type} : Debounced Args :=
  {| d_timeout := None; d_pending := ∅; d_next := 1; d_calls := [] |}.

(** [clearTimeout(timeout)]; no effect with [undefined] or a timer that fired. *)
Definition d_clearTimeout {Args : Type} (s : Debounced Args) : gmap nat Args :=
  match d_timeout s with
  | Some id => delete id (d_pending s)
  | None => d_pending s
  end.

(** [executedFunction(...args)] *)
Definition d_executedFunction {Args : Type} (args : Args) (s : Debounced Args)
  : Debounced Args :=
  {| d_timeout := Some (d_next s);
     d_pending := <[d_next s := args]> (d_clearTimeout s);
     d_next := S (d_next s);
     d_calls := d_calls s |}.

(** The timer [id] fires and runs [later]. *)
Definition d_fire {Args : Type} (id : nat) (s : Debounced Args) : Debounced Args :=
  match d_pending s !! id with
  | Some args =>
      let s1 := {| d_timeout := d_timeout s; d_pending := delete id (d_pending s);
                   d_next := d_next s; d_calls := d_calls s |} in
      {| d_timeout := d_timeout s1; d_pending := d_clearTimeout s1;
         d_next := d_next s1; d_calls := d_calls s1 ++ [args] |}
  | None => s
  end.

Inductive DStep (Args : Type) : Type :=
| DCall (args : Args)
| DFire (id : nat).
Arguments DCall {Args} args.
Arguments DFire {Args} id.

Definition d_step {Args : Type} (s : Debounced Args) (x : DStep Args) : Debounced Args :=
  match x with
  | DCall args => d_executedFunction args s
  | DFire id => d_fire id s
  end.

Definition d_run {Args : Type} (l : list (DStep Args)) (s : Debounced Args)
  : Debounced Args :=
  foldl d_step s l.

(** The arguments of the calls of the debounced function in [l]. *)
Definition d_args {Args : Type} (l : list (DStep Args)) : list Args :=
  l ≫= λ x, match x with DCall args => [args] | DFire _ => [] end.

(** The only timer that can be pending is the one [timeout] names. *)
Definition d_single {Args : Type} (s : Debounced Args) : Prop :=
  ∀ id args, d_pending s !! id = Some args → d_timeout s = Some id.

(** The arguments a pending timer holds. *)
Definition d_waiting {Args : Type} (s : Debounced Args) : list Args :=
  (map_to_list (d_pending s)).*2.

(** The state of a throttled function: the variable [inThrottle] (undefined
    is falsy), the number of pending timers that reset it, and the arguments of
    the calls of [func] so far. *)
Record Throttled (Args : Type) : Type := mkThrottled {
  t_inThrottle : bool;
  t_pending : nat;
  t_calls : list Args
}.
Arguments mkThrottled {Args} _ _ _.
Arguments t_inThrottle {Args} _.
Arguments t_pending {Args} _.
Arguments t_calls {Args} _.

(** [throttle(func, limit)]: [inThrottle] is undefined. *)
Definition throttle {Args : Type} : Throttled Args :=
  {| t_inThrottle := false; t_pending := 0; t_calls := [] |}.

(** [executedFunction(...args)]; [throws args] tells whether [func(...args)]
    throws, which ends the call before [inThrottle] is set. *)
Definition t_executedFunction {Args : Type} (throws : Args → bool) (args : Args)
    (s : Throttled Args) : Throttled Args :=
  if negb (t_inThrottle s) then
    if throws args then
      {| t_inThrottle := t_inThrottle s; t_pending := t_pending s;
         t_calls := t_calls s ++ [args] |}
    else
      {| t_inThrottle := true; t_pending := S (t_pending s);
         t_calls := t_calls s ++ [args] |}
  else s.

(** A pending timer fires: [inThrottle = false]. *)
Definition t_fire {Args : Type} (s : Throttled Args) : Throttled Args :=
  match t_pending s with
  | S n => {| t_inThrottle := false; t_pending := n; t_calls := t_calls s |}
  | O => s
  end.

Inductive TStep (Args : Type) : Type :=
| TCall (args : Args)
| TFire.
Arguments TCall {Args} args.
Arguments TFire {Args}.

Definition t_step {Args : Type} (throws : Args → bool) (s : Throttled Args)
    (x : TStep Args) : Throttled Args :=
  match x with
  | TCall args => t_executedFunction throws args s
  | TFire => t_fire s
  end.

Definition t_run {Args : Type} (throws : Args → bool) (l : list (TStep Args))
    (s : Throttled Args) : Throttled Args :=
  foldl (t_step throws) s l.

(** The number of timers that fire in [l], and the arguments of the calls
    of the throttled function in [l]. *)
Fixpoint t_fires {Args : Type} (l : list (TStep Args)) : nat :=
  match l with
  | [] => 0
  | TFire :: l => S (t_fires l)
  | TCall _ :: l => t_fires l
  end.

Definition t_args {Args : Type} (l : list (TStep Args)) : list Args :=
  l ≫= λ x, match x with TCall args => [args] | TFire => [] end.

(** One timer is pending exactly while [inThrottle] is set. *)
Definition t_armed {Args : Type} (s : Throttled Args) : Prop :=
  t_pending s = if t_inThrottle s then 1 else 0.

(** The calls of [func] that returned. *)
Definition t_returned {Args : Type} (throws : Args → bool) (s : Throttled Args) : list Args :=
  filter (λ a, throws a = false) (t_calls s).

(** * Properties *)

(** * Regular expressions: the matcher decides the language *)

Module RegexFacts.
Import Regex.

Lemma nullable_lang r : nullable r = true ↔ lang r [].
Proof.
  induction r; simpl.
  - split; [done | inversion 1].
  - split; [constructor | done].
  - split; [done | inversion 1].
  - rewrite andb_true_iff, IHr1, IHr2. split.
    + intros [H1 H2]. apply (lang_seq _ _ [] []); done.
    + inversion 1 as [| |? ? u v Hu Hv [Hr Hs] Heq| | | |]; subst.
      apply app_eq_nil in Heq as [-> ->]. done.
  - rewrite orb_true_iff, IHr1, IHr2. split.
    + intros [H|H]; [by apply lang_alt_l | by apply lang_alt_r].
    + inversion 1; subst; auto.
  - split; [constructor | done].
Qed.

(** A non-empty word of [r*] starts with a non-empty word of [r]. *)
Lemma lang_star_cons r c w :
  lang (Star r) (c :: w) →
  ∃ u v, w = u ++ v ∧ lang r (c :: u) ∧ lang (Star r) v.
Proof.
  intros H. remember (Star r) as q eqn:Hq. remember (c :: w) as x eqn:Hx.
  revert c w Hx. induction H; intros c' w Hx; try discriminate.
  inversion Hq; subst. destruct u as [|d u].
  - simpl in Hx. apply IHlang2; done.
  - simpl in Hx. inversion Hx; subst. eauto.
Qed.

Lemma deriv_lang c r w : lang (deriv c r) w ↔ lang r (c :: w).
Proof.
  revert w. induction r; intros w; simpl.
  - split; inversion 1.
  - split; inversion 1.
  - destruct (p c) eqn:Hp; split.
    + inversion 1; subst. by constructor.
    + inversion 1; subst. constructor.
    + inversion 1.
    + inversion 1; subst. congruence.
  - assert (Hcat : lang (Seq (deriv c r1) r2) w →  lang (Seq r1 r2) (c :: w)).
    { inversion 1; subst. apply (lang_seq _ _ (c :: u) v); [by apply IHr1 | done]. }
    assert (Hinv : lang (Seq r1 r2) (c :: w) →
              lang (Seq (deriv c r1) r2) w ∨ (lang r1 [] ∧ lang r2 (c :: w))).
    { inversion 1 as [| |? ? u v Hu Hv [Hr Hs] Heq| | | |]; subst.
      destruct u as [|d u]; simpl in *.
      - right. subst. done.
      - inversion Heq; subst. left. constructor; [by apply IHr1 | done]. }
    destruct (nullable r1) eqn:Hn; split.
    + inversion 1; subst; [auto |].
      apply (lang_seq _ _ [] (c :: w)); [by apply nullable_lang | by apply IHr2].
    + intros H. destruct (Hinv H) as [H'|[_ H']];
        [by apply lang_alt_l | apply lang_alt_r; by apply IHr2].
    + done.
    + intros H. destruct (Hinv H) as [H'|[H' _]]; [done |].
      apply nullable_lang in H'. congruence.
  - split.
    + inversion 1; subst; [apply lang_alt_l; by apply IHr1 | apply lang_alt_r; by apply IHr2].
    + inversion 1; subst; [apply lang_alt_l; by apply IHr1 | apply lang_alt_r; by apply IHr2].
  - split.
    + inversion 1; subst. apply (lang_star_app _ (c :: u) v); [by apply IHr | done].
    + intros H. apply lang_star_cons in H as (u & v & -> & Hu & Hv).
      constructor; [by apply IHr | done].
Qed.

Lemma test_lang r w : test r w = true ↔ lang r w.
Proof.
  revert r. induction w as [|c w IH]; intros r; simpl.
  - apply nullable_lang.
  - rewrite IH. apply deriv_lang.
Qed.

(** [p*] and [p+] for a one-character class [p]. *)
Lemma lang_star_sym p w : lang (Star (Sym p)) w ↔ Forall (λ c, p c = true) w.
Proof.
  split.
  - intros H. remember (Star (Sym p)) as q eqn:Hq.
    induction H; try discriminate; [constructor |].
    inversion Hq; subst. inversion H; subst. constructor; [done | by apply IHlang2].
  - induction 1 as [|c w Hc _ IH]; [constructor |].
    apply (lang_star_app _ [c] w); [by constructor | done].
Qed.

Lemma lang_plus_sym p w :
  lang (Plus (Sym p)) w ↔ w ≠ [] ∧ Forall (λ c, p c = true) w.
Proof.
  unfold Plus. split.
  - inversion 1 as [| |? ? u v Hu Hv Heq| | | |]; subst.
    inversion Hu; subst. apply lang_star_sym in Hv. split; [done | by constructor].
  - intros [Hne Hall]. destruct Hall as [|c w Hc Hw]; [done |].
    apply (lang_seq _ _ [c] w); [by constructor | by apply lang_star_sym].
Qed.

Lemma lang_chr c w : lang (Chr c) w ↔ w = [c].
Proof.
  unfold Chr. split.
  - inversion 1; subst. by apply N.eqb_eq in H1 as ->.
  - intros ->. constructor. apply N.eqb_refl.
Qed.

End RegexFacts.

Lemma email_part_ok (c : N) :
  negb (existsb (Regex.item_has c) [Regex.ISpace; Regex.IChar 64]) = true ↔ email_char c.
Proof.
  unfold email_char. cbn [existsb Regex.item_has].
  rewrite orb_false_r, negb_true_iff, orb_false_iff, N.eqb_neq.
  split; intros [? ?]; split; congruence.
Qed.

(** The matcher run on [emailRegex] accepts exactly the addresses of the shape
    [a@b.c]. *)
Lemma emailRegex_test_shape (s : jsstring) :
  Regex.test emailRegex s = true ↔ email_shape s.
Proof.
  rewrite RegexFacts.test_lang. unfold emailRegex, email_shape, Regex.NotIn.
  set (p := λ c, negb (existsb (Regex.item_has c) [Regex.ISpace; Regex.IChar 64])).
  assert (Hp : ∀ w, Forall (λ c, p c = true) w ↔ Forall email_char w).
  { intros w. apply Forall_proper; [|done]. intros c. apply email_part_ok. }
  split.
  - inversion 1 as [| |? ? a r1 Ha Hr1 Heq| | | |]; subst.
    inversion Hr1 as [| |? ? at_ r2 Hat Hr2 Heq| | | |]; subst.
    inversion Hr2 as [| |? ? b r3 Hb Hr3 Heq| | | |]; subst.
    inversion Hr3 as [| |? ? dot c Hdot Hc Heq| | | |]; subst.
    apply RegexFacts.lang_chr in Hat as ->. apply RegexFacts.lang_chr in Hdot as ->.
    apply RegexFacts.lang_plus_sym in Ha as [? ?%Hp], Hb as [? ?%Hp], Hc as [? ?%Hp].
    exists a, b, c. done.
  - intros (a & b & c & -> & Ha & Hb & Hc & Fa & Fb & Fc).
    apply (Regex.lang_seq _ _ a); [apply RegexFacts.lang_plus_sym; by rewrite Hp |].
    apply (Regex.lang_seq _ _ [64%N]); [by apply RegexFacts.lang_chr |].
    apply (Regex.lang_seq _ _ b); [apply RegexFacts.lang_plus_sym; by rewrite Hp |].
    apply (Regex.lang_seq _ _ [46%N]); [by apply RegexFacts.lang_chr |].
    apply RegexFacts.lang_plus_sym; by rewrite Hp.
Qed.

Example emailRegex_accepts : Regex.test emailRegex (js "a@b.com") = true.
Proof. reflexivity. Qed.

Example emailRegex_rejects : Regex.test emailRegex (js "not-an-email") = false.
Proof. reflexivity. Qed.

(** * Running computations *)

Ltac mrun :=
  repeat (progress (unfold mbind, M_bind, mret, M_ret, gets, modify, throw, deref,
                    when_present; cbn beta iota)).

Lemma js_gt_spec (s t : Q) : js_gt (Some s) t = true ↔ (t < s)%Q.
Proof.
  unfold js_gt. rewrite negb_true_iff, <- not_true_iff_false, Qle_bool_iff.
  split; [apply Qnot_le_lt | apply Qlt_not_le].
Qed.

(** * Class lists *)

Lemma get_el_set_elems i j e w :
  get_el j (set_elems (<[i := e]> (elems w)) w) = if decide (i = j) then e else get_el j w.
Proof.
  unfold get_el. simpl. rewrite lookup_insert. by destruct (decide (i = j)).
Qed.

Lemma has_class_add c i c' j w :
  has_class c' j (world_of (classList_add i c w)) ↔ (i = j ∧ c = c') ∨ has_class c' j w.
Proof.
  unfold has_class, classList_add, update_el, modify. cbn [world_of].
  rewrite get_el_set_elems. destruct (decide (i = j)) as [->|]; simpl; set_solver.
Qed.

Lemma has_class_remove c i c' j w :
  has_class c' j (world_of (classList_remove i c w)) ↔ has_class c' j w ∧ ¬ (i = j ∧ c = c').
Proof.
  unfold has_class, classList_remove, update_el, modify. cbn [world_of].
  rewrite get_el_set_elems. destruct (decide (i = j)) as [->|]; simpl; set_solver.
Qed.

(** * Scroll handlers *)

Lemma handleHeaderScroll_run w h :
  header (elements w) = Some h →
  handleHeaderScroll w =
    if js_gt (js_or (scrollY (window w)) (pageYOffset (window w))) 100
    then classList_add h "header--scrolled" w
    else classList_remove h "header--scrolled" w.
Proof.
  intros Hh. unfold handleHeaderScroll, read_scrollY. mrun.
  destruct (js_gt _ _); mrun; rewrite Hh; done.
Qed.

Lemma handleBackToTopVisibility_run w b :
  backToTop (elements w) = Some b →
  handleBackToTopVisibility w =
    if js_gt (js_or (scrollY (window w)) (pageYOffset (window w))) 300
    then classList_add b "footer__back-to-top--visible" w
    else classList_remove b "footer__back-to-top--visible" w.
Proof.
  intros Hb. unfold handleBackToTopVisibility, read_scrollY. mrun.
  destruct (js_gt _ _); mrun; rewrite Hb; done.
Qed.

(** An absent header or button makes the handler throw. *)
Lemma handleHeaderScroll_null w :
  header (elements w) = None → handleHeaderScroll w = Throw TypeError w.
Proof.
  intros Hh. unfold handleHeaderScroll, read_scrollY. mrun.
  destruct (js_gt _ _); mrun; rewrite Hh; done.
Qed.

Lemma handleBackToTopVisibility_null w :
  backToTop (elements w) = None → handleBackToTopVisibility w = Throw TypeError w.
Proof.
  intros Hb. unfold handleBackToTopVisibility, read_scrollY. mrun.
  destruct (js_gt _ _); mrun; rewrite Hb; done.
Qed.

Lemma toggle_spec (c : string) (i : nat) (cond : bool) (w : World) :
  ∃ w',
    (if cond then classList_add i c w else classList_remove i c w) = Ok tt w'
    ∧ elements w' = elements w
    ∧ window w' = window w
    ∧ ∀ c' j, has_class c' j w' ↔
              if decide (i = j ∧ c = c') then cond = true else has_class c' j w.
Proof.
  destruct cond; eexists; (split; [done|]); (split; [done|]); (split; [done|]); intros c' j.
  - rewrite (has_class_add c i c' j w). destruct (decide _); naive_solver.
  - rewrite (has_class_remove c i c' j w). destruct (decide _); naive_solver.
Qed.

(** C2. For every scroll offset [s] the handlers read, after
    [handleHeaderScroll] and [handleBackToTopVisibility] have run the header
    carries [header--scrolled] iff [s > 100] and the back-to-top button carries
    [footer__back-to-top--visible] iff [s > 300]. *)
Theorem scroll_classes (w : World) (h b : nat) (s : Q) :
  header (elements w) = Some h →
  backToTop (elements w) = Some b →
  js_or (scrollY (window w)) (pageYOffset (window w)) = Some s →
  ∃ w1 w2,
    handleHeaderScroll w = Ok tt w1
    ∧ handleBackToTopVisibility w1 = Ok tt w2
    ∧ (has_class "header--scrolled" h w1 ↔ (100 < s)%Q)
    ∧ (has_class "header--scrolled" h w2 ↔ (100 < s)%Q)
    ∧ (has_class "footer__back-to-top--visible" b w2 ↔ (300 < s)%Q).
Proof.
  intros Hh Hb Hs.
  rewrite (handleHeaderScroll_run w h Hh), Hs.
  destruct (toggle_spec "header--scrolled" h (js_gt (Some s) 100) w)
    as (w1 & R1 & E1 & W1 & C1).
  exists w1.
  rewrite (handleBackToTopVisibility_run w1 b), W1, Hs by congruence.
  destruct (toggle_spec "footer__back-to-top--visible" b (js_gt (Some s) 300) w1)
    as (w2 & R2 & E2 & W2 & C2).
  exists w2.
  split; [exact R1|]. split; [exact R2|].
  rewrite <- !js_gt_spec.
  repeat split; rewrite ?C2; repeat case_decide; rewrite ?C1; repeat case_decide;
    naive_solver.
Qed.

Lemma scroll_classes_witness :
  ∃ w1 w2,
    handleHeaderScroll (page_at 250) = Ok tt w1
    ∧ handleBackToTopVisibility w1 = Ok tt w2
    ∧ (has_class "header--scrolled" 0 w1 ↔ (100 < 250)%Q)
    ∧ (has_class "header--scrolled" 0 w2 ↔ (100 < 250)%Q)
    ∧ (has_class "footer__back-to-top--visible" 1 w2 ↔ (300 < 250)%Q).
Proof. apply (scroll_classes (page_at 250) 0 1 250); reflexivity. Defined.

(** * The modal *)

Lemma openModal_run w m :
  modal (elements w) = Some m →
  openModal w =
    Ok tt (set_timers (timers w ++ focus_timers w)
            (set_body_overflow "hidden" (world_of (classList_add m "modal--active" w)))).
Proof.
  intros Hm. unfold openModal, focus_timers. mrun. rewrite Hm. simpl.
  destruct (modal_input (document w)); simpl; [done|].
  by rewrite app_nil_r; destruct w.
Qed.

Lemma closeModal_run w m :
  modal (elements w) = Some m →
  closeModal w =
    Ok tt (set_body_overflow "" (world_of (classList_remove m "modal--active" w))).
Proof. intros Hm. unfold closeModal. mrun. by rewrite Hm. Qed.

Lemma openModal_null w : modal (elements w) = None → openModal w = Throw TypeError w.
Proof. intros Hm. unfold openModal. mrun. by rewrite Hm. Qed.

Lemma closeModal_null w : modal (elements w) = None → closeModal w = Throw TypeError w.
Proof. intros Hm. unfold closeModal. mrun. by rewrite Hm. Qed.

Lemma get_el_insert i e w : get_el i (set_elems (<[i := e]> (elems w)) w) = e.
Proof. rewrite get_el_set_elems. by destruct (decide (i = i)). Qed.

(** C5 as stated fails: with an inline [overflow: scroll] on the body, opening
    and closing the modal leaves the empty value, not [scroll]. *)
Lemma modal_roundtrip_counterexample :
  ∃ w1 w2,
    openModal (set_body_overflow "scroll" (page_at 0)) = Ok tt w1
    ∧ closeModal w1 = Ok tt w2
    ∧ body_overflow w2 ≠ body_overflow (set_body_overflow "scroll" (page_at 0)).
Proof. eexists _, _. split; [reflexivity|]. split; [reflexivity|]. done. Qed.

(** C5, amended. Opening the modal sets the body's inline overflow to
    [hidden]; closing it sets the empty value whatever the value before the
    opening was, so the value before the opening is restored exactly when it was
    empty. *)
Theorem modal_roundtrip (w : World) (m : nat) :
  modal (elements w) = Some m →
  ∃ w1 w2,
    openModal w = Ok tt w1 ∧ closeModal w1 = Ok tt w2
    ∧ body_overflow w1 = "hidden"
    ∧ body_overflow w2 = ""
    ∧ (body_overflow w2 = body_overflow w ↔ body_overflow w = "").
Proof.
  intros Hm. rewrite (openModal_run w m Hm). eexists _, _. split; [done|].
  rewrite (closeModal_run _ m) by done. split; [done|]. simpl. naive_solver.
Qed.

Lemma modal_roundtrip_witness :
  ∃ w1 w2,
    openModal (page_at 0) = Ok tt w1 ∧ closeModal w1 = Ok tt w2
    ∧ body_overflow w1 = "hidden"
    ∧ body_overflow w2 = ""
    ∧ (body_overflow w2 = body_overflow (page_at 0) ↔ body_overflow (page_at 0) = "").
Proof. apply (modal_roundtrip (page_at 0) 2). reflexivity. Defined.

(** C8 as stated fails: a second [openModal] stacks a second focus timer. *)
Lemma modal_idempotent_counterexample :
  ∃ w1 w2,
    openModal (page_at 0) = Ok tt w1 ∧ openModal w1 = Ok tt w2
    ∧ timers w1 = [{| callback := CbFocus 3; delay := 300 |}]
    ∧ timers w2 = [{| callback := CbFocus 3; delay := 300 |};
                   {| callback := CbFocus 3; delay := 300 |}]
    ∧ w2 ≠ w1.
Proof.
  eexists _, _. split; [reflexivity|]. split; [reflexivity|].
  split; [reflexivity|]. split; [reflexivity|].
  intros H. apply (f_equal timers) in H. discriminate H.
Qed.

(** C8, amended. A second [openModal] leaves the class list of every element
    and the body's overflow as the first call left them, and its only effect is
    one more pending focus timer when the modal has an input; a second
    [closeModal] changes nothing at all. *)
Theorem modal_idempotent (w : World) (m : nat) :
  modal (elements w) = Some m →
  (∃ w1 w2,
     openModal w = Ok tt w1 ∧ openModal w1 = Ok tt w2
     ∧ has_class "modal--active" m w1
     ∧ body_overflow w1 = "hidden"
     ∧ w2 = set_timers (timers w1 ++ focus_timers w) w1)
  ∧ (∃ w1,
       closeModal w = Ok tt w1 ∧ closeModal w1 = Ok tt w1
       ∧ ¬ has_class "modal--active" m w1
       ∧ body_overflow w1 = "").
Proof.
  intros Hm. split.
  - rewrite (openModal_run w m Hm). eexists _, _. split; [done|].
    rewrite (openModal_run _ m) by done. split; [done|].
    split; [apply (has_class_add "modal--active" m "modal--active" m w); by left|].
    split; [done|]. unfold classList_add, update_el, modify. cbn [world_of].
    unfold set_timers, set_body_overflow, get_el. simpl.
    rewrite lookup_insert_eq, insert_insert_eq. simpl.
    f_equal. f_equal. unfold with_classList. simpl. f_equal. set_solver.
  - rewrite (closeModal_run w m Hm). eexists. split; [done|].
    rewrite (closeModal_run _ m) by done.
    split.
    + unfold classList_remove, update_el, modify. cbn [world_of].
      unfold set_body_overflow, get_el. simpl.
      rewrite lookup_insert_eq, insert_insert_eq. simpl.
      do 2 f_equal. f_equal. unfold with_classList. simpl. f_equal. set_solver.
    + split; [|done]. intros H.
      apply (has_class_remove "modal--active" m "modal--active" m w) in H. naive_solver.
Qed.

Lemma modal_idempotent_witness :
  (∃ w1 w2,
     openModal (page_at 0) = Ok tt w1 ∧ openModal w1 = Ok tt w2
     ∧ has_class "modal--active" 2 w1
     ∧ body_overflow w1 = "hidden"
     ∧ w2 = set_timers (timers w1 ++ focus_timers (page_at 0)) w1)
  ∧ (∃ w1,
       closeModal (page_at 0) = Ok tt w1 ∧ closeModal w1 = Ok tt w1
       ∧ ¬ has_class "modal--active" 2 w1
       ∧ body_overflow w1 = "").
Proof. apply (modal_idempotent (page_at 0) 2). reflexivity. Defined.

(** * Notifications *)

Lemma showNotification_run message type w :
  ∃ w',
    showNotification message type w = Ok tt w'
    ∧ body_notifications w' =
        filter (λ m, m ≠ next_node w)
          (match body_notifications w with
           | [] => []
           | n :: _ => filter (λ m, m ≠ n) (body_notifications w)
           end) ++ [next_node w]
    ∧ nodes w' = <[next_node w := new_notification message (default "success" type)]> (nodes w)
    ∧ next_node w' = S (next_node w)
    ∧ head_styles w' = head_styles w ++ [slideDown_keyframes]
    ∧ timers w' = timers w ++ [{| callback := CbFade (next_node w); delay := 3000 |}]
    ∧ elems w' = elems w ∧ waitlistForm w' = waitlistForm w
    ∧ body_overflow w' = body_overflow w ∧ defaultPrevented w' = defaultPrevented w
    ∧ console w' = console w.
Proof.
  unfold showNotification, createNotification, node_remove, body_appendChild,
    head_appendChild, setTimeout. mrun.
  destruct (body_notifications w) eqn:E; simpl; rewrite ?E; eexists; (split; [done|]);
    simpl; done.
Qed.

(** With at most one notification in the document, a call leaves exactly its own. *)
Lemma showNotification_single message type w :
  (length (body_notifications w) ≤ 1)%nat →
  body_notifications (world_of (showNotification message type w)) = [next_node w].
Proof.
  intros Hlen. destruct (showNotification_run message type w) as (w' & Hr & Hb & _).
  rewrite Hr. cbn [world_of]. rewrite Hb.
  destruct (body_notifications w) as [|n [|? ?]]; simpl in *; [done | | lia].
  rewrite filter_cons. destruct (decide (n ≠ n)); done.
Qed.

Lemma run_actions_snoc l a w :
  run_actions (l ++ [a]) w = world_of (run_action a (run_actions l w)).
Proof. unfold run_actions. by rewrite foldl_app. Qed.

Lemma last_call_snoc l a :
  last_call (l ++ [a]) =
    match a with
    | Notify message type => Some (message, default "success" type)
    | TimerFires _ => last_call l
    end.
Proof.
  induction l as [|b l IH]; simpl.
  - by destruct a.
  - rewrite IH. destruct a; [done|]. done.
Qed.

Lemma count_calls_snoc l a :
  count_calls (l ++ [a]) =
    match a with
    | Notify _ _ => S (count_calls l)
    | TimerFires _ => count_calls l
    end.
Proof.
  induction l as [|b l IH]; simpl.
  - by destruct a.
  - rewrite IH. by destruct b, a.
Qed.

(** The element [showNotification] makes shows its message and its kind. *)
Lemma notification_of_new (message type : string) (n : nat) (w : World) :
  nodes w !! n = Some (new_notification message type) →
  notification_of message type n w.
Proof.
  intros H. exists (new_notification message type). split; [done|].
  split; [reflexivity|]. split; [reflexivity|]. reflexivity.
Qed.

(** What a timer that fires does to the notifications: it detaches at most
    one, and changes nothing but the style of an element. *)
Lemma fire_timer_notifications k w :
  let w' := world_of (fire_timer k w) in
  (body_notifications w' = body_notifications w
   ∨ ∃ n, body_notifications w' = filter (λ m, m ≠ n) (body_notifications w))
  ∧ head_styles w' = head_styles w
  ∧ ∀ message type n, notification_of message type n w → notification_of message type n w'.
Proof.
  unfold fire_timer. mrun. destruct (timers w !! k) as [[cb d]|] eqn:E; cbn zeta.
  2:{ split; [by left|done]. }
  destruct cb as [i| |n|n]; simpl.
  - split; [by left|done].
  - unfold closeModal. mrun. simpl.
    destruct (modal (elements w)); simpl; (split; [by left|done]).
  - split; [by left|]. split; [done|].
    intros message type n' (x & Hx & Hc & Hi & Hb). unfold notification_of. simpl.
    destruct (decide (n = n')) as [->|Hne].
    + rewrite !lookup_alter_eq, Hx. simpl. eexists. split; [done|]. simpl.
      split; [done|]. split; [done|].
      unfold style_assign. simpl. by rewrite !lookup_insert_ne.
    + rewrite !lookup_alter_ne by done. eauto.
  - split; [right; by exists n|done].
Qed.

(** The invariant of the notification slot. *)
Lemma notification_slot (l : list Action) (w : World) :
  (length (body_notifications w) ≤ 1)%nat →
  (length (body_notifications (run_actions l w)) ≤ 1)%nat
  ∧ ∀ message type, last_call l = Some (message, type) →
      ∀ n, n ∈ body_notifications (run_actions l w) →
        notification_of message type n (run_actions l w).
Proof.
  intros Hw. induction l as [|a l [IHlen IHlast]] using rev_ind.
  - split; [done|]. discriminate.
  - rewrite run_actions_snoc, last_call_snoc. set (w1 := run_actions l w) in *.
    destruct a as [message type|k]; simpl.
    + rewrite showNotification_single by done. split; [simpl; lia|].
      intros ? ? [= <- <-] n ->%list_elem_of_singleton.
      destruct (showNotification_run message type w1) as (w' & -> & _ & Hn & _).
      cbn [world_of]. apply notification_of_new. by rewrite Hn, lookup_insert_eq.
    + destruct (fire_timer_notifications k w1) as ([Hb|[n Hb]] & _ & Hkeep); cbn zeta in *.
      * rewrite Hb. split; [done|]. intros message type Hl n Hin. by apply Hkeep, IHlast.
      * rewrite Hb. split.
        { etrans; [apply length_filter|done]. }
        intros message type Hl n' Hin. apply Hkeep, IHlast; [done|].
        by apply list_elem_of_filter in Hin as [_ ?].
Qed.

(** * The reveal animator *)

Lemma delay_text_nonempty (n : nat) : pretty n +:+ "ms" ≠ "".
Proof. by destruct (pretty n). Qed.

Lemma reveal_run entry index w :
  ∃ w', reveal entry index w = Ok tt w'
    ∧ elements w' = elements w ∧ document w' = document w ∧ window w' = window w
    ∧ (∀ t, target entry ≠ t ∨ isIntersecting entry = false → get_el t w' = get_el t w)
    ∧ (isIntersecting entry = true →
         animation_delay (target entry) w' = Some (Txt (pretty (index * 100)%nat +:+ "ms"))
         ∧ has_class "animate-in" (target entry) w')
    ∧ observed w' = (if isIntersecting entry then observed w ∖ {[target entry]} else observed w).
Proof.
  unfold reveal. destruct (isIntersecting entry) eqn:E.
  - unfold el_style_assign, classList_add, unobserve, update_el. mrun. eexists.
    split; [done|]. simpl. do 3 (split; [done|]). split.
    + intros t [Hne|?]; [|done]. unfold get_el. simpl. by rewrite !lookup_insert_ne.
    + split; [|done]. intros _. unfold animation_delay, has_class, get_el. simpl.
      rewrite !lookup_insert_eq. simpl. unfold style_assign.
      destruct (decide _) as [Hempty|_]; [by apply delay_text_nonempty in Hempty|].
      rewrite lookup_insert_eq. split; [done | set_solver].
  - eexists. split; [done|]. do 3 (split; [done|]). split; [done|]. split; [done|]. done.
Qed.

Lemma forEach_from_cons {A} (x : A) l f index w :
  forEach_from index (x :: l) f w =
    match f x index w with
    | Ok _ w' => forEach_from (S index) l f w'
    | Throw e w' => Throw e w'
    end.
Proof. done. Qed.

(** The callback from index [index] on. *)
Lemma reveal_from_run (entries : list Entry) (index : nat) (w : World) :
  ∃ w', forEach_from index entries reveal w = Ok tt w'
    ∧ elements w' = elements w ∧ document w' = document w ∧ window w' = window w
    ∧ (∀ t, (∀ e, e ∈ entries → isIntersecting e = true → target e ≠ t) →
         get_el t w' = get_el t w)
    ∧ (∀ i e, entries !! i = Some e → isIntersecting e = true →
         (∀ j e', i < j → entries !! j = Some e' → isIntersecting e' = true →
            target e' ≠ target e) →
         animation_delay (target e) w' = Some (Txt (pretty ((index + i) * 100)%nat +:+ "ms")))
    ∧ (∀ e, e ∈ entries → isIntersecting e = true → has_class "animate-in" (target e) w')
    ∧ (∀ t, has_class "animate-in" t w → has_class "animate-in" t w')
    ∧ observed w' ⊆ observed w
    ∧ (∀ e, e ∈ entries → isIntersecting e = true → target e ∉ observed w').
Proof.
  revert index w. induction entries as [|x l IH]; intros index w.
  - exists w. split; [done|]. do 3 (split; [done|]). split; [done|].
    split; [intros i e; by rewrite lookup_nil|]. split; [by intros e ?%elem_of_nil|].
    split; [done|]. split; [done|]. by intros e ?%elem_of_nil.
  - rewrite forEach_from_cons.
    destruct (reveal_run x index w) as (w1 & -> & E1 & D1 & W1 & F1 & S1 & O1).
    destruct (IH (S index) w1) as (w2 & -> & E2 & D2 & W2 & F2 & S2 & C2 & K2 & O2 & N2).
    exists w2. split; [done|]. do 3 (split; [congruence|]).
    assert (Hkeep1 : ∀ t, has_class "animate-in" t w1 → has_class "animate-in" t w2) by done.
    assert (Hkeep0 : ∀ t, has_class "animate-in" t w → has_class "animate-in" t w1).
    { intros t Ht. destruct (isIntersecting x) eqn:Ex.
      - destruct (decide (target x = t)) as [<-|Hne]; [by apply S1|].
        unfold has_class. rewrite F1; [done | by left].
      - unfold has_class. rewrite F1; [done | by right]. }
    split; [|split; [|split; [|split; [|split]]]].
    + intros t Ht. rewrite F2, F1; [done | |].
      * destruct (isIntersecting x) eqn:Ex; [left|by right].
        apply Ht; [by left | done].
      * intros e He. apply Ht. by right.
    + intros [|i] e Hi He Hlater; simpl in Hi.
      * inversion Hi; subst x. rewrite Nat.add_0_r.
        unfold animation_delay. rewrite F2; [by apply S1|].
        intros e' [k Hk]%list_elem_of_lookup He'.
        apply (Hlater (S k) e'); [lia | done | done].
      * replace (index + S i) with (S index + i) by lia.
        apply S2; [done | done |]. intros j e' Hj. apply (Hlater (S j) e'). lia.
    + intros e [->|He]%elem_of_cons Hint; [apply Hkeep1; by apply S1 | by apply C2].
    + intros t Ht. by apply Hkeep1, Hkeep0.
    + etrans; [exact O2|]. rewrite O1. destruct (isIntersecting x); set_solver.
    + intros e [->|He]%elem_of_cons Hint; [|by apply N2].
      intros Hin. apply O2 in Hin. rewrite O1, Hint in Hin. set_solver.
Qed.

Lemma observer_callback_run (entries : list Entry) (w : World) :
  ∃ w', observer_callback entries w = Ok tt w'
    ∧ (∀ t, (∀ e, e ∈ entries → isIntersecting e = true → target e ≠ t) →
         get_el t w' = get_el t w)
    ∧ (∀ i e, entries !! i = Some e → isIntersecting e = true →
         (∀ j e', i < j → entries !! j = Some e' → isIntersecting e' = true →
            target e' ≠ target e) →
         animation_delay (target e) w' = Some (Txt (pretty (i * 100)%nat +:+ "ms")))
    ∧ (∀ e, e ∈ entries → isIntersecting e = true → has_class "animate-in" (target e) w')
    ∧ observed w' ⊆ observed w
    ∧ (∀ e, e ∈ entries → isIntersecting e = true → target e ∉ observed w').
Proof.
  unfold observer_callback, forEach.
  destruct (reveal_from_run entries 0 w)
    as (w' & R & _ & _ & _ & F & S & C & _ & O & N).
  exists w'. done.
Qed.

(** C6 as stated fails: in the batch [[10 (not intersecting); 11 (intersecting)]]
    the first intersecting element gets the delay [100ms], not [0ms]. *)
Lemma stagger_counterexample :
  ∃ w',
    observer_callback [{| target := 10; isIntersecting := false |};
                       {| target := 11; isIntersecting := true |}] (page_at 0) = Ok tt w'
    ∧ intersecting_before 1 [{| target := 10; isIntersecting := false |};
                             {| target := 11; isIntersecting := true |}] = 0
    ∧ animation_delay 11 w' = Some (Txt "100ms")
    ∧ animation_delay 11 w' ≠ Some (Txt "0ms").
Proof.
  exists (world_of (observer_callback [{| target := 10; isIntersecting := false |};
                                       {| target := 11; isIntersecting := true |}] (page_at 0))).
  split; [reflexivity|]. split; [reflexivity|].
  assert (H : animation_delay 11
           (world_of (observer_callback [{| target := 10; isIntersecting := false |};
                       {| target := 11; isIntersecting := true |}] (page_at 0)))
           = Some (Txt "100ms")) by (vm_compute; reflexivity).
  split; [exact H|]. rewrite H. discriminate.
Qed.

(** C6, amended. In every batch given to the observer callback, an
    intersecting entry's target is assigned the animation delay of its index
    in the whole batch, the entries that do not intersect counted too, times
    100 ms (the last intersecting entry of a target decides, should a batch
    name a target twice). *)
Theorem stagger_delay (entries : list Entry) (w : World) (i : nat) (e : Entry) :
  entries !! i = Some e →
  isIntersecting e = true →
  (∀ j e', i < j → entries !! j = Some e' → isIntersecting e' = true →
     target e' ≠ target e) →
  ∃ w', observer_callback entries w = Ok tt w'
        ∧ animation_delay (target e) w' = Some (Txt (pretty (i * 100)%nat +:+ "ms")).
Proof.
  intros Hi He Hlater.
  destruct (observer_callback_run entries w) as (w' & R & _ & S & _).
  exists w'. split; [done|]. by apply S.
Qed.

Lemma stagger_delay_witness :
  ∃ w', observer_callback [{| target := 10; isIntersecting := false |};
                           {| target := 11; isIntersecting := true |}] (page_at 0) = Ok tt w'
        ∧ animation_delay 11 w' = Some (Txt (pretty (1 * 100)%nat +:+ "ms")).
Proof.
  apply (stagger_delay _ (page_at 0) 1 {| target := 11; isIntersecting := true |}).
  - reflexivity.
  - reflexivity.
  - intros [|[|j]] e' Hj He'; [lia | lia | discriminate].
Defined.

Lemma run_batches_cons b bs w :
  run_batches (b :: bs) w = run_batches bs (world_of (observer_callback b w)).
Proof. done. Qed.

(** An element that is not observed is named by no later batch and is left as
    it is. *)
Lemma unobserved_untouched (bs : list (list Entry)) (w : World) (t : nat) :
  t ∉ observed w →
  delivered bs w →
  (∀ b e, b ∈ bs → e ∈ b → target e ≠ t)
  ∧ get_el t (run_batches bs w) = get_el t w
  ∧ t ∉ observed (run_batches bs w).
Proof.
  revert w. induction bs as [|b bs IH]; intros w Hno Hdel.
  - split; [by intros b e ?%elem_of_nil | done].
  - destruct Hdel as [Hb Hdel]. rewrite run_batches_cons.
    destruct (observer_callback_run b w) as (w' & R & F & _ & _ & O & _).
    rewrite R in *. cbn [world_of] in *.
    assert (Hnot : ∀ e, e ∈ b → target e ≠ t).
    { intros e He <-. by apply Hno, Hb. }
    destruct (IH w') as (IH1 & IH2 & IH3); [set_solver | done |].
    split; [|split; [|done]].
    + intros b' e [->|Hb']%elem_of_cons He; [by apply Hnot | by apply (IH1 b')].
    + rewrite IH2. apply F. intros e He _. by apply Hnot.
Qed.

(** C7. An element the observer reports as intersecting receives the class
    [animate-in] and is unobserved; the browser reporting observed targets
    only, no later batch names it, and the later batches leave it as it is: it
    keeps the class and stays unobserved. *)
Theorem reveal_once (b : list Entry) (bs : list (list Entry)) (w : World) (e : Entry) :
  delivered (b :: bs) w →
  e ∈ b →
  isIntersecting e = true →
  ∃ w1,
    observer_callback b w = Ok tt w1
    ∧ has_class "animate-in" (target e) w1
    ∧ (target e ∉ observed w1)
    ∧ (∀ b' e', b' ∈ bs → e' ∈ b' → target e' ≠ target e)
    ∧ get_el (target e) (run_batches bs w1) = get_el (target e) w1
    ∧ has_class "animate-in" (target e) (run_batches bs w1)
    ∧ target e ∉ observed (run_batches bs w1).
Proof.
  intros [Hb Hdel] He Hint.
  destruct (observer_callback_run b w) as (w1 & R & _ & _ & C & _ & N).
  rewrite R in Hdel. cbn [world_of] in Hdel.
  exists w1. split; [done|]. split; [by apply C|]. split; [by apply N|].
  destruct (unobserved_untouched bs w1 (target e)) as (H1 & H2 & H3); [by apply N | done |].
  split; [done|]. split; [done|]. split; [|done].
  unfold has_class. rewrite H2. by apply C.
Qed.

Lemma reveal_once_witness :
  ∃ w1,
    observer_callback [{| target := 11; isIntersecting := true |}]
      (set_observed {[10; 11]} (page_at 0)) = Ok tt w1
    ∧ has_class "animate-in" 11 w1
    ∧ (11 ∉ observed w1)
    ∧ (∀ b' e', b' ∈ [[{| target := 10; isIntersecting := true |}]] → e' ∈ b' → target e' ≠ 11)
    ∧ get_el 11 (run_batches [[{| target := 10; isIntersecting := true |}]] w1) = get_el 11 w1
    ∧ has_class "animate-in" 11 (run_batches [[{| target := 10; isIntersecting := true |}]] w1)
    ∧ 11 ∉ observed (run_batches [[{| target := 10; isIntersecting := true |}]] w1).
Proof.
  apply (reveal_once [{| target := 11; isIntersecting := true |}]
           [[{| target := 10; isIntersecting := true |}]]
           (set_observed {[10; 11]} (page_at 0)) {| target := 11; isIntersecting := true |}).
  - split.
    + intros e ->%list_elem_of_singleton. simpl. set_solver.
    + split; [|done]. intros e ->%list_elem_of_singleton. vm_compute. reflexivity.
  - by apply list_elem_of_singleton.
  - reflexivity.
Defined.

(** * Smooth scroll *)

(** C9. A click on a same-page anchor: with the href [#] the handler returns
    without effect; with a target that resolves, the default navigation is
    suppressed and the page is asked to scroll to the target's offset minus
    the header's height; with no target, nothing is scrolled and the default
    navigation is left alone. *)
Theorem smooth_scroll (w : World) (a h : nat) (key : string) :
  header (elements w) = Some h →
  (href (get_el a w) = Some "#" →
     dispatch (anchor_listener a) key w = Ok tt (set_defaultPrevented false w))
  ∧ (∀ t, href (get_el a w) ≠ Some "#" →
       querySelector (document w) (anchor_selector a w) = Found t →
       ∃ w', dispatch (anchor_listener a) key w = Ok tt w'
             ∧ defaultPrevented w' = true
             ∧ scrollTo_calls w' = scrollTo_calls w ++
                 [{| top := offsetTop (get_el t w) - offsetHeight (get_el h w);
                     behavior := "smooth" |}])
  ∧ (href (get_el a w) ≠ Some "#" →
       querySelector (document w) (anchor_selector a w) = NotFound →
       dispatch (anchor_listener a) key w = Ok tt (set_defaultPrevented false w)).
Proof.
  intros Hh. unfold dispatch, anchor_listener, anchor_selector, anchor_click.
  cbn [l_handler l_target]. mrun.
  replace (get_el a (set_defaultPrevented false w)) with (get_el a w) by done.
  split; [|split].
  - intros ->. by destruct (decide _).
  - intros t Hne Hq. destruct (decide _); [done|].
    change (document (set_defaultPrevented false w)) with (document w). rewrite Hq.
    unfold preventDefault, window_scrollTo. mrun. simpl. rewrite Hh. simpl.
    eexists. split; [done|]. done.
  - intros Hne Hq. destruct (decide _); [done|].
    change (document (set_defaultPrevented false w)) with (document w). by rewrite Hq.
Qed.

Lemma smooth_scroll_witness :
  ∃ w', dispatch (anchor_listener 7) "" page_with_anchors = Ok tt w'
        ∧ defaultPrevented w' = true
        ∧ scrollTo_calls w' = [{| top := 820; behavior := "smooth" |}].
Proof.
  destruct (smooth_scroll page_with_anchors 7 0 "") as (_ & H & _); [reflexivity|].
  apply (H 5); [discriminate | reflexivity].
Defined.

(** An invalid selector makes the handler throw; nothing is scrolled and the
    default navigation is left alone. *)
Lemma smooth_scroll_bad_selector (w : World) (a : nat) (key : string) :
  href (get_el a w) ≠ Some "#" →
  querySelector (document w) (anchor_selector a w) = BadSelector →
  dispatch (anchor_listener a) key w = Throw SyntaxError (set_defaultPrevented false w).
Proof.
  intros Hne Hq. unfold dispatch, anchor_listener, anchor_selector, anchor_click in *.
  cbn [l_handler l_target]. mrun.
  replace (get_el a (set_defaultPrevented false w)) with (get_el a w) by done.
  destruct (decide _); [done|].
  change (document (set_defaultPrevented false w)) with (document w). by rewrite Hq.
Qed.

(** With a target that resolves and no header the handler throws after it has
    suppressed the default navigation. *)
Lemma smooth_scroll_no_header (w : World) (a t : nat) (key : string) :
  header (elements w) = None →
  href (get_el a w) ≠ Some "#" →
  querySelector (document w) (anchor_selector a w) = Found t →
  dispatch (anchor_listener a) key w = Throw TypeError (set_defaultPrevented true w).
Proof.
  intros Hh Hne Hq. unfold dispatch, anchor_listener, anchor_selector, anchor_click in *.
  cbn [l_handler l_target]. mrun.
  replace (get_el a (set_defaultPrevented false w)) with (get_el a w) by done.
  destruct (decide _); [done|].
  change (document (set_defaultPrevented false w)) with (document w). rewrite Hq.
  unfold preventDefault. mrun. simpl. rewrite Hh. by destruct w.
Qed.

(** * Form submission *)

Lemma js_not_true (s : jsstring) : js_not s = true ↔ s = [].
Proof. by destruct s. Qed.

Lemma handleFormSubmit_run (w : World) (f : Form) (name email : Input) :
  waitlistForm w = Some f →
  text_input f = Some name →
  email_input f = Some email →
  handleFormSubmit w =
    let w0 := set_defaultPrevented true w in
    if js_not (value name) || js_not (value email) then
      showNotification "Please fill in all fields" (Some "error") w0
    else if negb (Regex.test emailRegex (value email)) then
      showNotification "Please enter a valid email address" (Some "error") w0
    else
      (showNotification "Welcome to the Mojik family! 🎉" (Some "success") ;;
       target_reset ;; setTimeout CbCloseModal 1500)
        (set_console (console w ++ [LogFormSubmitted (value name) (value email)]) w0).
Proof.
  intros Hf Hn He. unfold handleFormSubmit, preventDefault, target_value, console_log. mrun.
  simpl. rewrite Hf. simpl. rewrite Hn. simpl. rewrite Hf. simpl. rewrite He. simpl.
  destruct (js_not (value name) || js_not (value email)); [done|].
  by destruct (negb (Regex.test emailRegex (value email))).
Qed.

Lemma showNotification_notified message type w :
  (length (body_notifications w) ≤ 1)%nat →
  ∃ w', showNotification message (Some type) w = Ok tt w'
        ∧ notified message type w w'
        ∧ timers w' = timers w ++ [{| callback := CbFade (next_node w); delay := 3000 |}]
        ∧ waitlistForm w' = waitlistForm w
        ∧ defaultPrevented w' = defaultPrevented w
        ∧ console w' = console w.
Proof.
  intros Hlen. pose proof (showNotification_single message (Some type) w Hlen) as Hone.
  destruct (showNotification_run message (Some type) w)
    as (w' & Hr & _ & Hn & Hnext & Hh & Ht & _ & Hf & _ & Hp & Hc).
  rewrite Hr in Hone. exists w'. split; [done|]. split; [|done].
  split; [done|]. split; [done|]. split.
  - apply notification_of_new. by rewrite Hn, lookup_insert_eq.
  - done.
Qed.

(** C1. A submit event on the waitlist form: the default submission is
    suppressed, and exactly one notification is emitted: one new element,
    alone in the document, whose class is [notification notification--]
    followed by the kind and whose content is the message in its [span].
    With an empty text or email field it is the error [Please fill in all
    fields] and nothing else happens; otherwise, with an email that is not of
    the shape [a@b.c], it is the error [Please enter a valid email address]
    and nothing else happens; otherwise it is the success notification, the
    value of each field of the form becomes its default value and
    [closeModal] is scheduled after 1500 ms, after the notification. *)
Theorem form_submit (w : World) (f : Form) (name email : Input) (key : string) :
  waitlistForm w = Some f →
  text_input f = Some name →
  email_input f = Some email →
  (length (body_notifications w) ≤ 1)%nat →
  ∃ w' message type,
    dispatch submit_listener key w = Ok tt w'
    ∧ defaultPrevented w' = true
    ∧ notified message type w w'
    ∧ (value name = [] ∨ value email = [] →
         message = "Please fill in all fields" ∧ type = "error"
         ∧ waitlistForm w' = Some f
         ∧ timers w' = timers w ++ [{| callback := CbFade (next_node w); delay := 3000 |}]
         ∧ console w' = console w)
    ∧ (value name ≠ [] → value email ≠ [] → ¬ email_shape (value email) →
         message = "Please enter a valid email address" ∧ type = "error"
         ∧ waitlistForm w' = Some f
         ∧ timers w' = timers w ++ [{| callback := CbFade (next_node w); delay := 3000 |}]
         ∧ console w' = console w)
    ∧ (value name ≠ [] → email_shape (value email) →
         message = "Welcome to the Mojik family! 🎉" ∧ type = "success"
         ∧ waitlistForm w'
           = Some {| text_input := Some {| value := defaultValue name;
                                           defaultValue := defaultValue name |};
                     email_input := Some {| value := defaultValue email;
                                            defaultValue := defaultValue email |} |}
         ∧ timers w' = timers w ++ [{| callback := CbFade (next_node w); delay := 3000 |};
                                    {| callback := CbCloseModal; delay := 1500 |}]
         ∧ console w' = console w ++ [LogFormSubmitted (value name) (value email)]).
Proof.
  intros Hf Hn He Hlen.
  assert (Hshape_ne : email_shape (value email) → value email ≠ []).
  { intros (a & b & c & -> & _) Hnil. by destruct a. }
  unfold dispatch, submit_listener. cbn [l_handler l_target]. mrun.
  rewrite (handleFormSubmit_run _ f name email) by done. cbn zeta.
  destruct (js_not (value name) || js_not (value email)) eqn:Eempty.
  { destruct (showNotification_notified "Please fill in all fields" "error"
                (set_defaultPrevented true (set_defaultPrevented false w)) Hlen)
      as (w' & Hr & Hnot & Ht & Hform & Hp & Hc).
    exists w', "Please fill in all fields", "error".
    split; [exact Hr|]. split; [done|]. split; [exact Hnot|].
    apply orb_true_iff in Eempty. rewrite !js_not_true in Eempty.
    split; [intros _; rewrite Hform; done|].
    split; [intros ? ?; naive_solver|]. intros ? ?%Hshape_ne. naive_solver. }
  apply orb_false_iff in Eempty as [En Ee].
  apply not_true_iff_false in En, Ee. rewrite js_not_true in En, Ee.
  destruct (negb (Regex.test emailRegex (value email))) eqn:Etest.
  { destruct (showNotification_notified "Please enter a valid email address" "error"
                (set_defaultPrevented true (set_defaultPrevented false w)) Hlen)
      as (w' & Hr & Hnot & Ht & Hform & Hp & Hc).
    exists w', "Please enter a valid email address", "error".
    split; [exact Hr|]. split; [done|]. split; [exact Hnot|].
    apply negb_true_iff, not_true_iff_false in Etest. rewrite emailRegex_test_shape in Etest.
    split; [naive_solver|]. split; [intros _ _ _; rewrite Hform; done|]. naive_solver. }
  apply negb_false_iff in Etest. rewrite emailRegex_test_shape in Etest.
  set (w0 := set_console _ _).
  destruct (showNotification_notified "Welcome to the Mojik family! 🎉" "success" w0 Hlen)
    as (w1 & Hr & Hnot & Ht & Hform & Hp & Hc).
  mrun. rewrite Hr. unfold target_reset, setTimeout. mrun.
  eexists _, "Welcome to the Mojik family! 🎉", "success". split; [done|]. simpl. split; [done|].
  split.
  { destruct Hnot as (? & ? & (x & ? & ?) & ?). split; [done|]. split; [done|].
    split; [by exists x|]. done. }
  split; [naive_solver|]. split; [naive_solver|]. intros _ _.
  split; [done|]. split; [done|]. rewrite Hform, Ht, Hc, <- app_assoc.
  change (waitlistForm w0) with (waitlistForm w). rewrite Hf.
  cbn [fmap option_fmap option_map]. unfold Form_reset. by rewrite Hn, He.
Qed.

Lemma form_submit_witness :
  ∃ w',
    dispatch submit_listener ""
      (set_waitlistForm
         (Some {| text_input := Some {| value := js "A"; defaultValue := js "Guest" |};
                  email_input := Some {| value := js "a@b.com"; defaultValue := [] |} |})
         (page_at 0)) = Ok tt w'
    ∧ defaultPrevented w' = true
    ∧ body_notifications w' = [0]
    ∧ notification_of "Welcome to the Mojik family! 🎉" "success" 0 w'
    ∧ waitlistForm w'
      = Some {| text_input := Some {| value := js "Guest"; defaultValue := js "Guest" |};
                email_input := Some {| value := []; defaultValue := [] |} |}
    ∧ timers w' = [{| callback := CbFade 0; delay := 3000 |};
                   {| callback := CbCloseModal; delay := 1500 |}].
Proof.
  destruct (form_submit
              (set_waitlistForm
                 (Some {| text_input := Some {| value := js "A"; defaultValue := js "Guest" |};
                          email_input := Some {| value := js "a@b.com"; defaultValue := [] |} |})
                 (page_at 0)) _ _ _ "" eq_refl eq_refl eq_refl)
    as (w' & message & type & Hr & Hp & Hnot & _ & _ & Hok); [vm_compute; lia|].
  destruct Hok as (Hm & Ht & Hf & Htm & _).
  - discriminate.
  - apply emailRegex_test_shape. vm_compute. reflexivity.
  - subst message type. destruct Hnot as (_ & Hb & Hn & _).
    exists w'. split; [exact Hr|]. split; [exact Hp|].
    split; [exact Hb|]. split; [exact Hn|]. split; [exact Hf|]. exact Htm.
Defined.

(** The three submissions of the specification's examples. *)
Example submit_empty_name :
  ∃ w', dispatch submit_listener "" (page_with_form "" "a@b.com") = Ok tt w'
        ∧ notified "Please fill in all fields" "error" (page_with_form "" "a@b.com") w'
        ∧ timers w' = [{| callback := CbFade 0; delay := 3000 |}].
Proof.
  eexists. split; [reflexivity|]. split; [|reflexivity].
  split; [reflexivity|]. split; [reflexivity|]. split; [|reflexivity].
  eexists. split; [reflexivity|]. done.
Qed.

Example submit_bad_email :
  ∃ w', dispatch submit_listener "" (page_with_form "A" "not-an-email") = Ok tt w'
        ∧ notified "Please enter a valid email address" "error"
            (page_with_form "A" "not-an-email") w'
        ∧ timers w' = [{| callback := CbFade 0; delay := 3000 |}].
Proof.
  eexists. split; [reflexivity|]. split; [|reflexivity].
  split; [reflexivity|]. split; [reflexivity|]. split; [|reflexivity].
  eexists. split; [reflexivity|]. done.
Qed.

(** * Absent elements *)

Lemma safe_ret {A} (a : A) : safe (mret a).
Proof. intros w _. by exists a, w. Qed.

Lemma safe_gets {A} (f : World → A) : safe (gets f).
Proof. intros w _. by exists (f w), w. Qed.

Lemma safe_modify (f : World → World) :
  (∀ w, elements (f w) = elements w) → safe (modify f).
Proof. intros Hf w _. exists tt, (f w). split; [done | apply Hf]. Qed.

Lemma safe_bind {A B} (m : M A) (f : A → M B) :
  safe m → (∀ a, safe (f a)) → safe (m ≫= f).
Proof.
  intros Hm Hf w Hw. destruct (Hm w Hw) as (a & w1 & R1 & E1).
  destruct (Hf a w1) as (b & w2 & R2 & E2).
  { unfold required_present in *. by rewrite E1. }
  exists b, w2. unfold mbind, M_bind. rewrite R1. split; [done | congruence].
Qed.

Lemma safe_header : safe (gets (λ w, header (elements w)) ≫= deref).
Proof. intros w ([h Hh] & _). exists h, w. unfold mbind, M_bind, gets. by rewrite Hh. Qed.

Lemma safe_backToTop : safe (gets (λ w, backToTop (elements w)) ≫= deref).
Proof. intros w (_ & [b Hb] & _). exists b, w. unfold mbind, M_bind, gets. by rewrite Hb. Qed.

Lemma safe_modal : safe (gets (λ w, modal (elements w)) ≫= deref).
Proof. intros w (_ & _ & [m Hm]). exists m, w. unfold mbind, M_bind, gets. by rewrite Hm. Qed.

Lemma safe_forEach_from {A} (l : list A) (f : A → nat → M unit) index :
  (∀ x i, safe (f x i)) → safe (forEach_from index l f).
Proof.
  intros Hf. revert index. induction l as [|x l IH]; intros index; simpl.
  - apply safe_ret.
  - apply safe_bind; [apply Hf | intros _; apply IH].
Qed.

Lemma safe_forEach {A} (l : list A) (f : A → nat → M unit) :
  (∀ x i, safe (f x i)) → safe (forEach l f).
Proof. apply safe_forEach_from. Qed.

(** Safety of a computation follows its structure. *)
Ltac safe_step :=
  lazymatch goal with
  | |- safe (gets (λ w, header (elements w)) ≫= deref) => apply safe_header
  | |- safe (gets (λ w, backToTop (elements w)) ≫= deref) => apply safe_backToTop
  | |- safe (gets (λ w, modal (elements w)) ≫= deref) => apply safe_modal
  | |- safe (_ ≫= _) => apply safe_bind; [|intros ?]
  | |- safe (mret _) => apply safe_ret
  | |- safe (gets _) => apply safe_gets
  | |- safe (modify _) => apply safe_modify; intros ?; reflexivity
  | |- safe (forEach _ _) => apply safe_forEach; intros ? ?
  | |- safe (if ?b then _ else _) => destruct b
  | |- safe (match ?x with _ => _ end) => destruct x
  end.

Ltac safe_auto := repeat safe_step.

Lemma safe_update_el i f : safe (update_el i f).
Proof. unfold update_el. safe_auto. Qed.

Lemma safe_classList_add i c : safe (classList_add i c).
Proof. apply safe_update_el. Qed.

Lemma safe_classList_remove i c : safe (classList_remove i c).
Proof. apply safe_update_el. Qed.

Lemma safe_el_style_assign i p v : safe (el_style_assign i p v).
Proof. apply safe_update_el. Qed.

Lemma safe_setTimeout cb ms : safe (setTimeout cb ms).
Proof. unfold setTimeout. safe_auto. Qed.

Lemma safe_addEventListener t ty h : safe (addEventListener t ty h).
Proof. unfold addEventListener. safe_auto. Qed.

Lemma safe_handleHeaderScroll : safe handleHeaderScroll.
Proof.
  unfold handleHeaderScroll, read_scrollY. safe_auto;
    first [apply safe_classList_add | apply safe_classList_remove].
Qed.

Lemma safe_handleBackToTopVisibility : safe handleBackToTopVisibility.
Proof.
  unfold handleBackToTopVisibility, read_scrollY. safe_auto;
    first [apply safe_classList_add | apply safe_classList_remove].
Qed.

Lemma safe_handleParallax : safe handleParallax.
Proof. unfold handleParallax, read_scrollY. safe_auto; apply safe_update_el. Qed.

Lemma safe_scrollToTop : safe scrollToTop.
Proof. unfold scrollToTop, window_scrollTo. safe_auto. Qed.

Lemma safe_openModal : safe openModal.
Proof.
  unfold openModal. safe_auto; first [apply safe_classList_add | apply safe_setTimeout].
Qed.

Lemma safe_closeModal : safe closeModal.
Proof. unfold closeModal. safe_auto; apply safe_classList_remove. Qed.

Lemma safe_handleKeyboard key : safe (handleKeyboard key).
Proof.
  unfold handleKeyboard, classList_contains. safe_auto. apply safe_closeModal.
Qed.

Lemma safe_showNotification message type : safe (showNotification message type).
Proof.
  unfold showNotification, createNotification, node_remove, head_appendChild,
    body_appendChild. cbn zeta. safe_auto. apply safe_setTimeout.
Qed.

Lemma safe_observer_callback entries : safe (observer_callback entries).
Proof.
  unfold observer_callback. safe_auto. unfold reveal, unobserve. safe_auto;
    first [apply safe_el_style_assign | apply safe_classList_add].
Qed.

Lemma safe_frame_callback : safe frame_callback.
Proof.
  unfold frame_callback. safe_auto;
    first [apply safe_handleHeaderScroll | apply safe_handleBackToTopVisibility
          | apply safe_handleParallax].
Qed.

Lemma safe_run_frame : safe run_frame.
Proof. unfold run_frame. safe_auto. apply safe_frame_callback. Qed.

Lemma safe_run_callback cb : safe (run_callback cb).
Proof.
  unfold run_callback, node_style_assign, update_node, node_remove. destruct cb.
  - safe_auto.
  - apply safe_closeModal.
  - safe_auto. apply safe_setTimeout.
  - safe_auto.
Qed.

Lemma safe_fire_timer k : safe (fire_timer k).
Proof. unfold fire_timer. safe_auto. apply safe_run_callback. Qed.

Lemma safe_scroll_listener : safe scroll_listener.
Proof. unfold scroll_listener. safe_auto. Qed.

Lemma safe_initEventListeners : safe initEventListeners.
Proof. unfold initEventListeners, when_present. safe_auto; apply safe_addEventListener. Qed.

Lemma safe_setupScrollAnimations : safe setupScrollAnimations.
Proof.
  unfold setupScrollAnimations, observe, head_appendChild. safe_auto;
    apply safe_el_style_assign.
Qed.

Lemma safe_setupSmoothScroll : safe setupSmoothScroll.
Proof. unfold setupSmoothScroll. safe_auto. apply safe_addEventListener. Qed.

Lemma safe_setupBannerInteraction : safe setupBannerInteraction.
Proof. unfold setupBannerInteraction. safe_auto; apply safe_addEventListener. Qed.

Lemma safe_init : safe init.
Proof.
  unfold init, console_log. safe_auto;
    first [apply safe_initEventListeners | apply safe_setupScrollAnimations
          | apply safe_setupSmoothScroll | apply safe_setupBannerInteraction
          | apply safe_handleHeaderScroll | apply safe_handleBackToTopVisibility].
Qed.

Lemma set_listeners_app l1 l2 w :
  set_listeners (listeners (set_listeners l1 w) ++ l2) (set_listeners l1 w)
  = set_listeners (l1 ++ l2) w.
Proof. done. Qed.

Lemma forEach_addEventListener (l : list nat) ty h index w :
  forEach_from index l (λ x _, addEventListener (TElem x) ty h) w
  = Ok tt (set_listeners
      (listeners w ++ ((λ i, {| l_target := TElem i; l_type := ty; l_handler := h |}) <$> l)) w).
Proof.
  revert index w. induction l as [|x l IH]; intros index w.
  - simpl. rewrite app_nil_r. by destruct w.
  - rewrite forEach_from_cons. unfold addEventListener at 1, modify. rewrite IH.
    simpl. by rewrite <- app_assoc.
Qed.

Lemma initEventListeners_run w :
  initEventListeners w
  = Ok tt (set_listeners (listeners w ++ init_listeners w) (set_ticking false w)).
Proof.
  unfold initEventListeners, init_listeners, click_listener, forEach. mrun.
  unfold addEventListener at 1, modify. cbn [elements set_listeners set_ticking].
  destruct (backToTop (elements w)); cbn [elements set_listeners set_ticking addEventListener modify];
    rewrite forEach_addEventListener; cbn [elements waitlistForm listeners set_listeners set_ticking];
    destruct (modalClose (elements w)) eqn:Ec;
    cbn [addEventListener modify elements waitlistForm listeners set_listeners set_ticking];
    destruct (modalOverlay (elements w)) eqn:Eo;
    cbn [addEventListener modify elements waitlistForm listeners set_listeners set_ticking];
    destruct (waitlistForm w) eqn:Ef;
    cbn [addEventListener modify elements waitlistForm listeners set_listeners set_ticking];
    unfold addEventListener, modify, submit_listener; simpl;
    repeat rewrite <- app_assoc; simpl; reflexivity.
Qed.

Lemma safe_unit (m : M unit) (w : World) (refs : ElementRefs) :
  safe m → required_present w → elements w = refs →
  ∃ w', m w = Ok tt w' ∧ elements w' = refs.
Proof. intros Hm Hw <-. destruct (Hm w Hw) as ([] & w' & ? & ?). by exists w'. Qed.

Lemma handleFormSubmit_safe (w : World) :
  required_present w →
  (∃ f name email,
     waitlistForm w = Some f ∧ text_input f = Some name ∧ email_input f = Some email) →
  ∃ w', handleFormSubmit w = Ok tt w' ∧ elements w' = elements w.
Proof.
  intros Hw (f & name & email & Hf & Hn & He).
  rewrite (handleFormSubmit_run w f name email) by done. cbn zeta.
  destruct (_ || _); [by apply safe_unit; [apply safe_showNotification| |]|].
  destruct (negb _); [by apply safe_unit; [apply safe_showNotification| |]|].
  apply (safe_unit _ (set_console _ (set_defaultPrevented true w))); [|done|done].
  unfold target_reset. safe_auto; first [apply safe_showNotification | apply safe_setTimeout].
Qed.

Lemma anchor_click_safe (w : World) (a : nat) :
  required_present w →
  href (get_el a w) = Some "#"
  ∨ querySelector (document w) (anchor_selector a w) ≠ BadSelector →
  ∃ w', anchor_click a w = Ok tt w' ∧ elements w' = elements w.
Proof.
  intros ([h Hh] & _) Hdoc. unfold anchor_click, anchor_selector in *. mrun.
  destruct (decide _) as [|Hne]; [by exists w|].
  destruct Hdoc as [|Hq]; [done|].
  destruct (querySelector _ _); [|by exists w|done].
  unfold preventDefault, window_scrollTo. mrun. simpl. rewrite Hh. simpl. by eexists.
Qed.

Lemma dispatch_safe (l : Listener) (key : string) (w : World) :
  required_present w →
  documented (SEvent l key) w →
  ∃ w', dispatch l key w = Ok tt w' ∧ elements w' = elements w.
Proof.
  intros Hw Hdoc. unfold dispatch. mrun. simpl in Hdoc.
  set (w0 := set_defaultPrevented false w).
  assert (Hw0 : required_present w0) by done.
  change (elements w) with (elements w0).
  destruct (l_handler l).
  - by apply safe_unit; [apply safe_scroll_listener| |].
  - by apply safe_unit; [apply safe_scrollToTop| |].
  - by apply safe_unit; [apply safe_openModal| |].
  - by apply safe_unit; [apply safe_closeModal| |].
  - by apply handleFormSubmit_safe.
  - by apply safe_unit; [apply safe_handleKeyboard| |].
  - destruct (l_target l); try by exists w0. by apply anchor_click_safe.
  - destruct (l_target l); try by exists w0.
    by apply safe_unit; [apply safe_el_style_assign| |].
  - destruct (l_target l); try by exists w0.
    by apply safe_unit; [apply safe_el_style_assign| |].
Qed.

(** C4 as stated fails: on a page without a header, [handleHeaderScroll]
    dereferences [elements.header] without a guard and [init], which calls
    it, ends with a [TypeError]. *)
Lemma guarded_elements_counterexample :
  handleHeaderScroll page_without_header = Throw TypeError page_without_header
  ∧ ∃ w', init page_without_header = Throw TypeError w'.
Proof. split; [reflexivity|]. eexists. reflexivity. Qed.

(** C4, amended. On a page that has the header, the back-to-top button and
    the modal, [init] and every callback of the script (listeners, timers,
    animation frames, the observer callback) return without an exception under
    the documented inputs, whichever of the overlay, the close control, the
    form and the hero are absent; [initEventListeners] attaches no listener to
    an absent element. *)
Theorem guarded_elements (w : World) :
  required_present w →
  (∃ w', init w = Ok tt w' ∧ elements w' = elements w)
  ∧ initEventListeners w
      = Ok tt (set_listeners (listeners w ++ init_listeners w) (set_ticking false w))
  ∧ (∀ s, documented s w → ∃ w', react s w = Ok tt w' ∧ elements w' = elements w).
Proof.
  intros Hw. split; [by apply safe_unit; [apply safe_init| |]|].
  split; [apply initEventListeners_run|].
  intros [l key|k| |entries] Hdoc; simpl.
  - by apply dispatch_safe.
  - by apply safe_unit; [apply safe_fire_timer| |].
  - by apply safe_unit; [apply safe_run_frame| |].
  - by apply safe_unit; [apply safe_observer_callback| |].
Qed.

Lemma guarded_elements_witness :
  (∃ w', init (page_at 0) = Ok tt w' ∧ elements w' = elements (page_at 0))
  ∧ ∃ w', react SFrame (page_at 0) = Ok tt w' ∧ elements w' = elements (page_at 0).
Proof.
  destruct (guarded_elements (page_at 0)) as (Hinit & _ & Hreact).
  - unfold required_present. simpl. eauto.
  - split; [exact Hinit|]. by apply Hreact.
Defined.

(** * Properties every callback preserves *)

Section Preserves.
Variable R : World → World → Prop.
Hypothesis R_refl : ∀ w, R w w.
Hypothesis R_trans : ∀ w1 w2 w3, R w1 w2 → R w2 w3 → R w1 w3.

Lemma preserves_ret {A} (a : A) : preserves R (mret a).
Proof. intros w. apply R_refl. Qed.

Lemma preserves_throw {A} e : preserves R (throw e : M A).
Proof. intros w. apply R_refl. Qed.

Lemma preserves_gets {A} (f : World → A) : preserves R (gets f).
Proof. intros w. apply R_refl. Qed.

Lemma preserves_modify (f : World → World) : (∀ w, R w (f w)) → preserves R (modify f).
Proof. intros Hf w. apply Hf. Qed.

Lemma preserves_bind {A B} (m : M A) (f : A → M B) :
  preserves R m → (∀ a, preserves R (f a)) → preserves R (m ≫= f).
Proof.
  intros Hm Hf w. specialize (Hm w). unfold mbind, M_bind.
  destruct (m w) as [a w1|e w1]; [|done].
  eapply R_trans; [exact Hm | apply Hf].
Qed.

Lemma preserves_deref r : preserves R (deref r).
Proof. destruct r; [apply preserves_ret | apply preserves_throw]. Qed.

Lemma preserves_forEach_from {A} (l : list A) (f : A → nat → M unit) index :
  (∀ x i, preserves R (f x i)) → preserves R (forEach_from index l f).
Proof.
  intros Hf. revert index. induction l as [|x l IH]; intros index; simpl.
  - apply preserves_ret.
  - apply preserves_bind; [apply Hf | intros _; apply IH].
Qed.

Lemma preserves_forEach {A} (l : list A) (f : A → nat → M unit) :
  (∀ x i, preserves R (f x i)) → preserves R (forEach l f).
Proof. apply preserves_forEach_from. Qed.

(** The operations of the script that touch neither the head nor the
    notifications are covered by one hypothesis on field updates. *)
Hypothesis R_elems : ∀ x w, R w (set_elems x w).
Hypothesis R_form : ∀ x w, R w (set_waitlistForm x w).
Hypothesis R_overflow : ∀ x w, R w (set_body_overflow x w).
Hypothesis R_nodes : ∀ x w, R w (set_nodes x w).
Hypothesis R_next : ∀ x w, R w (set_next_node x w).
Hypothesis R_focused : ∀ x w, R w (set_focused x w).
Hypothesis R_observed : ∀ x w, R w (set_observed x w).
Hypothesis R_timers : ∀ x w, R w (set_timers x w).
Hypothesis R_frames : ∀ x w, R w (set_frames x w).
Hypothesis R_ticking : ∀ x w, R w (set_ticking x w).
Hypothesis R_listeners : ∀ x w, R w (set_listeners x w).
Hypothesis R_scrollTo : ∀ x w, R w (set_scrollTo_calls x w).
Hypothesis R_console : ∀ x w, R w (set_console x w).
Hypothesis R_prevented : ∀ x w, R w (set_defaultPrevented x w).
(** What [R] has to allow: a [style] appended to the head, a notification
    detached, and the whole of [showNotification]. *)
Hypothesis R_head : ∀ s w, R w (set_head_styles (head_styles w ++ [s]) w).
Hypothesis R_detach :
  ∀ n w, R w (set_body_notifications (filter (λ m, m ≠ n) (body_notifications w)) w).
Hypothesis R_show : ∀ message type, preserves R (showNotification message type).

Ltac preserves_step :=
  lazymatch goal with
  | |- preserves R (_ ≫= _) => apply preserves_bind; [|intros ?]
  | |- preserves R (mret _) => apply preserves_ret
  | |- preserves R (throw _) => apply preserves_throw
  | |- preserves R (gets _) => apply preserves_gets
  | |- preserves R deref => intros ?; apply preserves_deref
  | |- preserves R (deref _) => apply preserves_deref
  | |- preserves R (showNotification _ _) => apply R_show
  | |- preserves R (modify _) =>
      apply preserves_modify; intros ?;
      first [ apply R_elems | apply R_form | apply R_overflow | apply R_nodes | apply R_next
            | apply R_focused | apply R_observed | apply R_timers | apply R_frames
            | apply R_ticking | apply R_listeners | apply R_scrollTo | apply R_console
            | apply R_prevented | apply R_head | apply R_detach ]
  | |- preserves R (forEach _ _) => apply preserves_forEach; intros ? ?
  | |- preserves R (if ?b then _ else _) => destruct b
  | |- preserves R (match ?x with _ => _ end) => destruct x
  end.

Ltac preserves_unfold :=
  unfold handleHeaderScroll, handleBackToTopVisibility, handleParallax, scrollToTop,
    openModal, closeModal, handleKeyboard, handleFormSubmit, observer_callback, reveal,
    frame_callback, run_frame, run_callback, fire_timer, scroll_listener,
    initEventListeners, setupScrollAnimations, setupSmoothScroll, setupBannerInteraction,
    anchor_click, letter_mouseenter, letter_mouseleave, dispatch, init,
    read_scrollY, classList_add, classList_remove, classList_contains, el_style_assign,
    update_el, setTimeout, addEventListener, preventDefault, window_scrollTo, console_log,
    head_appendChild, node_remove, update_node, node_style_assign, target_value,
    target_reset, observe, unobserve, when_present.

Ltac preserves_auto := repeat first [preserves_step | progress preserves_unfold].

Lemma preserves_closeModal : preserves R closeModal.
Proof. preserves_auto. Qed.

Lemma preserves_frame_callback : preserves R frame_callback.
Proof. preserves_auto. Qed.

Lemma preserves_handleFormSubmit : preserves R handleFormSubmit.
Proof. preserves_auto. Qed.

Lemma preserves_dispatch l key : preserves R (dispatch l key).
Proof. preserves_auto. Qed.

Lemma preserves_fire_timer k : preserves R (fire_timer k).
Proof. preserves_auto. Qed.

Lemma preserves_observer_callback entries : preserves R (observer_callback entries).
Proof. preserves_auto. Qed.

Lemma preserves_init : preserves R init.
Proof. preserves_auto. Qed.

Lemma preserves_react s : preserves R (react s).
Proof.
  destruct s; simpl;
    [apply preserves_dispatch | apply preserves_fire_timer | | apply preserves_observer_callback].
  preserves_auto.
Qed.

Lemma preserves_run_stimuli l w : R w (run_stimuli l w).
Proof.
  revert w. induction l as [|s l IH]; intros w; simpl; [apply R_refl|].
  eapply R_trans; [apply preserves_react | apply IH].
Qed.

End Preserves.

(** ** The head only grows, the slot holds at most one notification *)

Lemma head_grows_stimuli (l : list Stimulus) (w : World) :
  head_grows w (run_stimuli l w) ∧ head_grows w (world_of (init w)).
Proof.
  assert (Hshow : ∀ message type, preserves head_grows (showNotification message type)).
  { intros message type w0.
    destruct (showNotification_run message type w0) as (w' & Hr & _ & _ & _ & Hh & _).
    rewrite Hr. unfold head_grows. simpl. rewrite Hh. by apply prefix_app_r. }
  split; [apply preserves_run_stimuli | apply preserves_init];
    unfold head_grows; try done;
    try (intros; simpl; by apply prefix_app_r);
    intros ? ? ? ? ?; by etrans.
Qed.

Lemma slot_kept_stimuli (l : list Stimulus) (w : World) :
  slot_kept w (run_stimuli l w) ∧ slot_kept w (world_of (init w)).
Proof.
  assert (Hshow : ∀ message type, preserves slot_kept (showNotification message type)).
  { intros message type w0 Hlen. rewrite showNotification_single by done. simpl. lia. }
  split; [apply preserves_run_stimuli | apply preserves_init];
    unfold slot_kept; try done; try (intros; simpl in *; lia); try naive_solver;
    intros n w0 Hlen; simpl; (etrans; [apply length_filter | done]).
Qed.

(** C3. After any finite sequence of calls of [showNotification], with the
    removal timers firing at any moments in between, the document holds at
    most one notification element, and it carries the message and the type of
    the most recent call: its content is that message in its [span], its
    class [notification notification--] followed by that type, its background
    the colour of that type; right after a call the document holds exactly the
    element of that call, the one that was there before having been removed.
    No other callback of the script adds a notification: the bound holds after
    any sequence of events, timers, frames and observer batches. *)
Theorem notification_last_wins (l : list Action) (w : World) :
  (length (body_notifications w) ≤ 1)%nat →
  (length (body_notifications (run_actions l w)) ≤ 1)%nat
  ∧ (∀ message type, last_call l = Some (message, type) →
       ∀ n, n ∈ body_notifications (run_actions l w) →
         notification_of message type n (run_actions l w))
  ∧ (∀ message type,
       ∃ w', showNotification message type (run_actions l w) = Ok tt w'
             ∧ body_notifications w' = [next_node (run_actions l w)]
             ∧ notification_of message (default "success" type)
                 (next_node (run_actions l w)) w')
  ∧ (∀ ss, (length (body_notifications (run_stimuli ss w)) ≤ 1)%nat).
Proof.
  intros Hw. destruct (notification_slot l w Hw) as [Hlen Hlast].
  split; [done|]. split; [done|]. split.
  - intros message type.
    pose proof (showNotification_single message type _ Hlen) as Hone.
    destruct (showNotification_run message type (run_actions l w))
      as (w' & Hr & _ & Hn & _).
    rewrite Hr in Hone. exists w'. split; [done|]. split; [done|].
    apply notification_of_new. by rewrite Hn, lookup_insert_eq.
  - intros ss. by apply (slot_kept_stimuli ss w).
Qed.

Lemma notification_last_wins_witness :
  (length (body_notifications
     (run_actions [Notify "a" None; Notify "b" (Some "error"); TimerFires 0] (page_at 0))) ≤ 1)%nat
  ∧ body_notifications
      (run_actions [Notify "a" None; Notify "b" (Some "error"); TimerFires 0] (page_at 0)) = [1]
  ∧ notification_of "b" "error" 1
      (run_actions [Notify "a" None; Notify "b" (Some "error"); TimerFires 0] (page_at 0)).
Proof.
  destruct (notification_last_wins
              [Notify "a" None; Notify "b" (Some "error"); TimerFires 0] (page_at 0))
    as (Hlen & Hlast & _); [vm_compute; lia|].
  split; [exact Hlen|]. split; [vm_compute; reflexivity|].
  apply Hlast; [vm_compute; reflexivity|]. vm_compute. by apply list_elem_of_singleton.
Defined.

(** C10. Every call of [showNotification] appends one more [style] element
    with the [slideDown] keyframes to the head, and nothing removes them: after
    a sequence with [n] calls, whatever timers fired in between, the head
    holds [n] more of them; a timer that fires leaves the head as it is (it
    only detaches notification elements or restyles them), and after [init]
    or any sequence of events, timers, frames and observer batches the head
    still starts with all the [style] elements it had. *)
Theorem keyframes_accumulate (l : list Action) (w : World) :
  head_styles (run_actions l w)
    = head_styles w ++ replicate (count_calls l) slideDown_keyframes
  ∧ (∀ message type w0,
       head_styles (world_of (showNotification message type w0))
         = head_styles w0 ++ [slideDown_keyframes])
  ∧ (∀ k w0, head_styles (world_of (fire_timer k w0)) = head_styles w0)
  ∧ (∀ ss w0, head_styles w0 `prefix_of` head_styles (run_stimuli ss w0))
  ∧ (∀ w0, head_styles w0 `prefix_of` head_styles (world_of (init w0))).
Proof.
  assert (Hshow : ∀ message type w0,
            head_styles (world_of (showNotification message type w0))
              = head_styles w0 ++ [slideDown_keyframes]).
  { intros message type w0.
    destruct (showNotification_run message type w0) as (w' & Hr & _ & _ & _ & Hh & _).
    by rewrite Hr. }
  assert (Hfire : ∀ k w0, head_styles (world_of (fire_timer k w0)) = head_styles w0).
  { intros k w0. by destruct (fire_timer_notifications k w0) as (_ & ? & _). }
  split; [|split; [done|split; [done|split]]].
  - induction l as [|a l IH] using rev_ind.
    + simpl. by rewrite app_nil_r.
    + rewrite run_actions_snoc, count_calls_snoc. destruct a as [message type|k]; simpl.
      * rewrite Hshow, IH, <- app_assoc. f_equal.
        clear. induction (count_calls l) as [|c IHc]; simpl; [done|]. by rewrite IHc.
      * by rewrite Hfire, IH.
  - intros ss w0. apply (head_grows_stimuli ss w0).
  - intros w0. apply (head_grows_stimuli [] w0).
Qed.

(** * Parallax and keyboard *)

Lemma js_lt_spec (s t : Q) : js_lt (Some s) t = true ↔ (s < t)%Q.
Proof.
  unfold js_lt. rewrite negb_true_iff, <- not_true_iff_false, Qle_bool_iff.
  split; [apply Qnot_le_lt | apply Qlt_not_le].
Qed.

(** X1. [handleParallax] never throws.  While the offset read is below the
    viewport height and the page has a hero, the hero's background position
    is half the offset and nothing else of the page changes; with no hero, an
    undefined offset or an offset at or beyond the viewport height the page is
    left as it is. *)
Theorem parallax_half_offset (w : World) :
  ∃ w',
    handleParallax w = Ok tt w'
    ∧ (∀ i y,
         hero (document w) = Some i →
         js_or (scrollY (window w)) (pageYOffset (window w)) = Some y →
         (y < inject_Z (innerHeight (window w)))%Q →
         style (get_el i w') !! "background-position-y" = Some (Px (y * (1 # 2)))
         ∧ classList (get_el i w') = classList (get_el i w)
         ∧ (∀ p, p ≠ "background-position-y" →
              style (get_el i w') !! p = style (get_el i w) !! p)
         ∧ (∀ j, j ≠ i → get_el j w' = get_el j w)
         ∧ w' = set_elems (elems w') w)
    ∧ (hero (document w) = None
       ∨ js_or (scrollY (window w)) (pageYOffset (window w)) = None
       ∨ (∃ y, js_or (scrollY (window w)) (pageYOffset (window w)) = Some y
               ∧ (inject_Z (innerHeight (window w)) <= y)%Q) →
       w' = w).
Proof.
  unfold handleParallax, read_scrollY. mrun.
  destruct (hero (document w)) as [i|] eqn:Eh;
    destruct (js_or _ _) as [y|] eqn:Ey; try (exists w; split; [done|]; split; [done|]; done).
  pose proof (js_lt_spec y (inject_Z (innerHeight (window w)))) as Hlt.
  destruct (js_lt (Some y) _) eqn:El.
  - eexists. split; [reflexivity|]. split.
    + intros ? ? [= <-] [= <-] _. unfold get_el. simpl. rewrite lookup_insert_eq. simpl.
      split; [by rewrite lookup_insert_eq|]. split; [done|].
      split; [by intros p Hp; rewrite lookup_insert_ne|].
      split; [by intros j Hj; rewrite lookup_insert_ne|]. done.
    + intros [?|[?|(y' & [= <-] & Hge)]]; [done|done|].
      exfalso. apply Qle_not_lt in Hge. apply Hge, Hlt. done.
  - exists w. split; [done|]. split; [|done].
    intros ? ? _ [= <-] Hy. apply Hlt in Hy. done.
Qed.

Lemma parallax_half_offset_witness :
  ∃ w', handleParallax (page_with_hero 300) = Ok tt w'
        ∧ style (get_el 4 w') !! "background-position-y" = Some (Px (300 * (1 # 2))).
Proof.
  destruct (parallax_half_offset (page_with_hero 300)) as (w' & Hr & Hin & _).
  exists w'. split; [exact Hr|].
  destruct (Hin 4 300%Q) as [H _]; [reflexivity | reflexivity | reflexivity | exact H].
Defined.

(** X2. [handleKeyboard]: a key other than Escape leaves the page as it is,
    even without a modal; Escape closes the modal (class removed, body overflow
    emptied) when it is open and leaves the page as it is when it is closed;
    Escape on a page without a modal ends with a [TypeError]. *)
Theorem escape_closes_open_modal (w : World) (key : string) :
  (key ≠ "Escape" → handleKeyboard key w = Ok tt w)
  ∧ (modal (elements w) = None → handleKeyboard "Escape" w = Throw TypeError w)
  ∧ (∀ m, modal (elements w) = Some m →
       (¬ has_class "modal--active" m w → handleKeyboard "Escape" w = Ok tt w)
       ∧ (has_class "modal--active" m w →
            handleKeyboard "Escape" w = closeModal w
            ∧ ∃ w', handleKeyboard "Escape" w = Ok tt w'
                    ∧ ¬ has_class "modal--active" m w'
                    ∧ body_overflow w' = "")).
Proof.
  unfold handleKeyboard, classList_contains. split; [|split].
  - intros Hk. by destruct (decide _).
  - intros Hm. destruct (decide _); [|done]. mrun. by rewrite Hm.
  - intros m Hm. destruct (decide _); [|done]. mrun. rewrite Hm. cbn beta iota.
    unfold has_class. split.
    + intros Hno. by rewrite bool_decide_eq_false_2.
    + intros Hact. rewrite bool_decide_eq_true_2 by done. split; [done|].
      rewrite (closeModal_run w m Hm). eexists. split; [done|]. split; [|done].
      intros H. apply (has_class_remove "modal--active" m "modal--active" m w) in H.
      naive_solver.
Qed.

Lemma escape_closes_open_modal_witness :
  ∃ w1 w2, openModal (page_at 0) = Ok tt w1
           ∧ handleKeyboard "Escape" w1 = Ok tt w2
           ∧ ¬ has_class "modal--active" 2 w2
           ∧ body_overflow w2 = "".
Proof.
  eexists. destruct (escape_closes_open_modal
    (world_of (openModal (page_at 0))) "Escape") as (_ & _ & H).
  destruct (H 2 eq_refl) as [_ Hopen].
  destruct Hopen as (_ & w2 & Hr & Hc & Ho).
  - apply (has_class_add "modal--active" 2 "modal--active" 2 (page_at 0)). by left.
  - exists w2. split; [reflexivity|]. split; [exact Hr|]. split; [exact Hc | exact Ho].
Defined.

(** * Invariants of the page under every stimulus *)

Lemma keeps_refl I w : keeps I w w.
Proof. by intros ?. Qed.

Lemma keeps_trans I w1 w2 w3 : keeps I w1 w2 → keeps I w2 w3 → keeps I w1 w3.
Proof. unfold keeps. auto. Qed.

(** Walks through a computation of the script; [leaf] closes the goals on
    the operations it knows. *)
Ltac walk_script :=
  unfold showNotification, handleHeaderScroll, handleBackToTopVisibility, handleParallax,
    scrollToTop, openModal, closeModal, handleKeyboard, handleFormSubmit, reveal,
    observer_callback, frame_callback, run_frame, run_callback, fire_timer, scroll_listener,
    initEventListeners, setupScrollAnimations, setupSmoothScroll, setupBannerInteraction,
    anchor_click, letter_mouseenter, letter_mouseleave, dispatch, init, react.

Ltac walk_dom :=
  unfold read_scrollY, classList_add, classList_remove, classList_contains, el_style_assign,
    setTimeout, addEventListener, preventDefault, window_scrollTo, console_log,
    head_appendChild, node_remove, node_style_assign, target_value, target_reset, observe,
    unobserve, when_present, createNotification, body_appendChild.

Ltac walk_store := unfold update_el, update_node.

Ltac walk_step I :=
  lazymatch goal with
  | |- preserves _ (_ ≫= _) => apply (preserves_bind _ (keeps_trans I)); [|intros ?]
  | |- preserves _ (mret _) => apply (preserves_ret _ (keeps_refl I))
  | |- preserves _ (throw _) => apply (preserves_throw _ (keeps_refl I))
  | |- preserves _ (gets _) => apply (preserves_gets _ (keeps_refl I))
  | |- preserves _ (deref _) => apply (preserves_deref _ (keeps_refl I))
  | |- preserves _ (forEach _ _) =>
      apply (preserves_forEach _ (keeps_refl I) (keeps_trans I)); intros ? ?
  | |- preserves _ (if ?b then _ else _) => destruct b
  | |- preserves _ (match ?x with _ => _ end) => destruct x
  | |- preserves _ (let _ := _ in _) => cbn zeta
  end.

Ltac walk I leaf :=
  repeat first [leaf | walk_step I | progress walk_script | progress walk_dom
               | progress walk_store].

(** ** Scroll events are coalesced into one animation frame *)

Lemma coalescing_modify (f : World → World) :
  (∀ w, elements (f w) = elements w ∧ frames (f w) = frames w ∧ ticking (f w) = ticking w) →
  preserves (keeps coalescing) (modify f).
Proof.
  intros Hf w [Hreq Harm]. destruct (Hf w) as (He & Hfr & Ht). unfold modify. simpl.
  split; [unfold required_present; by rewrite He | unfold scroll_armed; by rewrite Hfr, Ht].
Qed.

Lemma coalescing_scroll_listener : preserves (keeps coalescing) scroll_listener.
Proof.
  intros w [Hreq Harm]. unfold scroll_listener. mrun. unfold scroll_armed in *.
  destruct (ticking w) eqn:Et; simpl.
  - split; [done|]. unfold scroll_armed. by rewrite Et.
  - split; [done|]. unfold scroll_armed. simpl. by rewrite Harm.
Qed.

Lemma frames_kept_modify (n : nat) (f : World → World) :
  (∀ w, frames (f w) = frames w) → preserves (keeps (λ w, frames w = n)) (modify f).
Proof. intros Hf w Hw. unfold modify. simpl. by rewrite Hf. Qed.

Ltac frames_leaf :=
  idtac; lazymatch goal with
  | |- preserves _ (modify _) => apply frames_kept_modify; intros ?; reflexivity
  end.

Lemma frame_callback_run (w : World) :
  required_present w →
  ∃ w', frame_callback w = Ok tt w' ∧ elements w' = elements w
        ∧ frames w' = frames w ∧ ticking w' = false.
Proof.
  intros Hw.
  assert (Hfr : ∀ m : M unit, safe m → preserves (keeps (λ w0, frames w0 = frames w)) m →
            ∀ w0, required_present w0 → frames w0 = frames w →
              ∃ w', m w0 = Ok tt w' ∧ required_present w' ∧ frames w' = frames w
                    ∧ elements w' = elements w0).
  { intros m Hs Hp w0 Hw0 Hf0. destruct (safe_unit m w0 _ Hs Hw0 eq_refl) as (w' & Hr & He).
    exists w'. split; [done|]. specialize (Hp w0 Hf0). rewrite Hr in Hp.
    split; [unfold required_present; by rewrite He|]. done. }
  destruct (Hfr handleHeaderScroll safe_handleHeaderScroll) with (w0 := w)
    as (w1 & R1 & Q1 & F1 & E1); [walk (λ w0 : World, frames w0 = frames w) frames_leaf|done|done|].
  destruct (Hfr handleBackToTopVisibility safe_handleBackToTopVisibility) with (w0 := w1)
    as (w2 & R2 & Q2 & F2 & E2); [walk (λ w0 : World, frames w0 = frames w) frames_leaf|done|done|].
  destruct (Hfr handleParallax safe_handleParallax) with (w0 := w2)
    as (w3 & R3 & Q3 & F3 & E3); [walk (λ w0 : World, frames w0 = frames w) frames_leaf|done|done|].
  exists (set_ticking false w3). unfold frame_callback. mrun. rewrite R1, R2, R3.
  split; [done|]. split; [simpl; congruence|]. done.
Qed.

Lemma coalescing_run_frame : preserves (keeps coalescing) run_frame.
Proof.
  intros w [Hreq Harm]. unfold run_frame. mrun. unfold scroll_armed in Harm.
  destruct (frames w) as [|n] eqn:Ef.
  { simpl. split; [done|]. unfold scroll_armed. by rewrite Ef. }
  cbn beta iota.
  destruct (frame_callback_run (set_frames n w)) as (w' & Hr & He & Hf & Ht); [done|].
  rewrite Hr. simpl. split; [unfold required_present; by rewrite He|].
  unfold scroll_armed. rewrite Hf, Ht. simpl. destruct (ticking w); [congruence|done].
Qed.

Ltac coalescing_leaf :=
  idtac; lazymatch goal with
  | |- preserves _ scroll_listener => apply coalescing_scroll_listener
  | |- preserves _ run_frame => apply coalescing_run_frame
  | |- preserves _ (modify _) => apply coalescing_modify; intros ?; done
  end.

Lemma coalescing_react (s : Stimulus) : preserves (keeps coalescing) (react s).
Proof. destruct s; walk coalescing coalescing_leaf. Qed.

(** X3. On a page that has the header, the back-to-top button and the modal,
    the scroll listener coalesces scroll events: through any sequence of
    events, timers, animation frames and observer batches at most one
    animation frame callback is pending, and [ticking] is set exactly while one
    is; a burst of scroll events then asks for one frame only. *)
Theorem scroll_events_coalesced (l : list Stimulus) (w : World) (n : nat) :
  required_present w →
  scroll_armed w →
  scroll_armed (run_stimuli l w)
  ∧ (frames (run_stimuli l w) ≤ 1)%nat
  ∧ (ticking w = false →
       frames (run_stimuli (replicate (S n) scroll_event) w) = 1
       ∧ ticking (run_stimuli (replicate (S n) scroll_event) w) = true).
Proof.
  intros Hreq Harm.
  assert (Hrun : ∀ l' w', coalescing w' → coalescing (run_stimuli l' w')).
  { induction l' as [|s l' IH]; intros w' Hw'; simpl; [done|].
    apply IH. by apply coalescing_react. }
  destruct (Hrun l w) as [_ Hl]; [done|]. split; [done|]. split.
  - unfold scroll_armed in Hl. rewrite Hl. destruct (ticking _); lia.
  - intros Ht. simpl. unfold scroll_armed in Harm. rewrite Ht in Harm.
    set (w1 := world_of _).
    assert (H1 : coalescing w1 ∧ ticking w1 = true).
    { subst w1. unfold dispatch, scroll_listener. mrun. simpl. rewrite Ht. simpl.
      split; [|done]. split; [done|]. unfold scroll_armed. simpl. by rewrite Harm. }
    clearbody w1. destruct H1 as [Hc1 Ht1].
    assert (Hk : ∀ k w', coalescing w' → ticking w' = true →
              ticking (run_stimuli (replicate k scroll_event) w') = true
              ∧ coalescing (run_stimuli (replicate k scroll_event) w')).
    { induction k as [|k IH]; intros w' Hw' Ht'; simpl; [done|].
      apply IH.
      - by apply (coalescing_react scroll_event).
      - unfold dispatch, scroll_listener. mrun. simpl. by rewrite Ht'. }
    destruct (Hk n w1 Hc1 Ht1) as [Htn [_ Han]]. split; [|done].
    unfold scroll_armed in Han. by rewrite Htn in Han.
Qed.

Lemma scroll_events_coalesced_witness :
  frames (run_stimuli [scroll_event; scroll_event; scroll_event] (page_at 250)) = 1
  ∧ (frames (run_stimuli [scroll_event; scroll_event; SFrame; scroll_event; SFrame]
               (page_at 250)) ≤ 1)%nat.
Proof.
  assert (Hreq : required_present (page_at 250)) by (unfold required_present; simpl; eauto).
  split.
  - by apply (scroll_events_coalesced [] (page_at 250) 2).
  - by apply (scroll_events_coalesced
                [scroll_event; scroll_event; SFrame; scroll_event; SFrame] (page_at 250) 0).
Defined.

(** ** Without the header the scroll handling stalls *)

Lemma frame_callback_throws (w : World) :
  header (elements w) = None ∨ backToTop (elements w) = None →
  ∃ w', frame_callback w = Throw TypeError w'
        ∧ elements w' = elements w ∧ frames w' = frames w ∧ ticking w' = ticking w
        ∧ (header (elements w) = None → w' = w).
Proof.
  intros Hno. unfold frame_callback. mrun.
  destruct (header (elements w)) as [h|] eqn:Eh.
  - destruct Hno as [|Hb]; [done|]. rewrite (handleHeaderScroll_run w h Eh).
    destruct (js_gt _ _); cbn [classList_add classList_remove update_el modify];
      cbn beta iota; rewrite handleBackToTopVisibility_null by done; by eexists.
  - rewrite handleHeaderScroll_null by done. by exists w.
Qed.

Lemma scroll_event_run (w : World) :
  react scroll_event w =
    Ok tt (if ticking w then set_defaultPrevented false w
           else set_ticking true (set_frames (S (frames w)) (set_defaultPrevented false w))).
Proof.
  unfold react, scroll_event, dispatch, scroll_listener. mrun. simpl. by destruct (ticking w).
Qed.

(** X4. On a page without the header or without the back-to-top button the
    animation frame callback throws before it clears [ticking]: after the
    first scroll event and its frame, [ticking] stays set with no frame
    pending, and no later scroll event asks for a frame again. *)
Theorem scroll_stalls_without_header (l : list Stimulus) (w : World) :
  header (elements w) = None ∨ backToTop (elements w) = None →
  ticking w = false →
  frames w = 0 →
  (∀ s, s ∈ l → s = scroll_event ∨ s = SFrame) →
  ticking (run_stimuli (scroll_event :: SFrame :: l) w) = true
  ∧ frames (run_stimuli (scroll_event :: SFrame :: l) w) = 0.
Proof.
  intros Hno Ht Hf Hl.
  assert (Hstuck : ∀ l' w',
            elements w' = elements w → ticking w' = true → frames w' = 0 →
            (∀ s, s ∈ l' → s = scroll_event ∨ s = SFrame) →
            ticking (run_stimuli l' w') = true ∧ frames (run_stimuli l' w') = 0).
  { induction l' as [|s l' IH]; intros w' He Ht' Hf' Hl'; [done|].
    simpl. destruct (Hl' s) as [->| ->]; [by left| |].
    - rewrite scroll_event_run, Ht'. apply IH; try done. intros ? ?. apply Hl'. by right.
    - unfold react, run_frame. mrun. rewrite Hf'. apply IH; try done.
      intros ? ?. apply Hl'. by right. }
  change (run_stimuli (scroll_event :: SFrame :: l) w)
    with (run_stimuli l (world_of (react SFrame (world_of (react scroll_event w))))).
  rewrite scroll_event_run, Ht. cbn [world_of]. unfold react, run_frame. mrun.
  cbn [frames set_ticking set_frames]. rewrite Hf. cbn beta iota.
  destruct (frame_callback_throws
              (set_frames 0 (set_ticking true (set_frames 1 (set_defaultPrevented false w)))))
    as (w' & Hr & He & Hf' & Ht' & _); [done|].
  rewrite Hr. cbn [world_of]. by apply Hstuck.
Qed.

Lemma scroll_stalls_without_header_witness :
  ticking (run_stimuli [scroll_event; SFrame; scroll_event; scroll_event; SFrame]
             page_without_header) = true
  ∧ frames (run_stimuli [scroll_event; SFrame; scroll_event; scroll_event; SFrame]
              page_without_header) = 0.
Proof.
  apply (scroll_stalls_without_header [scroll_event; scroll_event; SFrame] page_without_header).
  - by left.
  - reflexivity.
  - reflexivity.
  - intros s Hs. repeat (apply elem_of_cons in Hs as [->|Hs]; [auto|]). by apply elem_of_nil in Hs.
Defined.

(** ** The page scroll is locked exactly while the modal is shown *)

Lemma scroll_locked_modify m (f : World → World) :
  (∀ w, elements (f w) = elements w ∧ elems (f w) = elems w
        ∧ body_overflow (f w) = body_overflow w) →
  preserves (keeps (scroll_locked m)) (modify f).
Proof.
  intros Hf w [Hm Hl]. destruct (Hf w) as (He & Hs & Ho). unfold modify. simpl.
  split; [by rewrite He|]. unfold has_class, get_el in *. by rewrite Hs, Ho.
Qed.

Lemma scroll_locked_update_el m i (f : Element → Element) :
  (∀ e, "modal--active" ∈ classList (f e) ↔ "modal--active" ∈ classList e) →
  preserves (keeps (scroll_locked m)) (update_el i f).
Proof.
  intros Hf w [Hm Hl]. unfold update_el, modify. simpl. split; [done|].
  unfold has_class. rewrite get_el_set_elems. simpl.
  destruct (decide (i = m)) as [->|]; [|done]. by rewrite Hf.
Qed.

Lemma scroll_locked_openModal m : preserves (keeps (scroll_locked m)) openModal.
Proof.
  intros w [Hm Hl]. rewrite (openModal_run w m Hm). simpl. split; [done|].
  split; [done|]. intros _.
  apply (has_class_add "modal--active" m "modal--active" m w). by left.
Qed.

Lemma scroll_locked_closeModal m : preserves (keeps (scroll_locked m)) closeModal.
Proof.
  intros w [Hm Hl]. rewrite (closeModal_run w m Hm). simpl. split; [done|].
  split; [|done]. intros H.
  apply (has_class_remove "modal--active" m "modal--active" m w) in H. naive_solver.
Qed.

Ltac scroll_locked_leaf :=
  idtac; lazymatch goal with
  | |- preserves _ openModal => apply scroll_locked_openModal
  | |- preserves _ closeModal => apply scroll_locked_closeModal
  | |- preserves _ (update_el _ _) =>
      apply scroll_locked_update_el; intros ?; simpl; set_solver
  | |- preserves _ (modify _) => apply scroll_locked_modify; intros ?; done
  end.

Lemma scroll_locked_react m (s : Stimulus) : preserves (keeps (scroll_locked m)) (react s).
Proof. destruct s; walk (scroll_locked m) scroll_locked_leaf. Qed.

Lemma scroll_locked_init m : preserves (keeps (scroll_locked m)) init.
Proof. walk (scroll_locked m) scroll_locked_leaf. Qed.

(** X5. The page scroll is locked exactly while the modal is shown: if the
    modal carries [modal--active] exactly when the body's overflow is
    [hidden], it still does after [init] and after any sequence of events,
    timers, animation frames and observer batches. *)
Theorem modal_locks_scroll (l : list Stimulus) (w : World) (m : nat) :
  modal (elements w) = Some m →
  (has_class "modal--active" m w ↔ body_overflow w = "hidden") →
  (has_class "modal--active" m (run_stimuli l w) ↔ body_overflow (run_stimuli l w) = "hidden")
  ∧ (has_class "modal--active" m (run_stimuli l (world_of (init w)))
     ↔ body_overflow (run_stimuli l (world_of (init w))) = "hidden").
Proof.
  intros Hm Hl.
  assert (Hrun : ∀ l' w', scroll_locked m w' → scroll_locked m (run_stimuli l' w')).
  { induction l' as [|s l' IH]; intros w' Hw'; simpl; [done|].
    apply IH. by apply scroll_locked_react. }
  split.
  - by apply (Hrun l w).
  - apply (Hrun l). by apply scroll_locked_init.
Qed.

Lemma modal_locks_scroll_witness :
  has_class "modal--active" 2
    (run_stimuli [SEvent {| l_target := TElem 9; l_type := "click"; l_handler := HOpenModal |} "";
                  scroll_event; SFrame] (page_at 250))
  ↔ body_overflow
      (run_stimuli [SEvent {| l_target := TElem 9; l_type := "click"; l_handler := HOpenModal |} "";
                    scroll_event; SFrame] (page_at 250)) = "hidden".
Proof.
  apply (modal_locks_scroll _ (page_at 250) 2); [reflexivity|].
  unfold has_class. simpl. split; [set_solver | discriminate].
Defined.

(** * The life of a notification *)

Lemma style_assign_lookup (p v p' : string) (s : gmap string css) :
  v ≠ "" →
  style_assign p v s !! p' = if decide (p = p') then Some (Txt v) else s !! p'.
Proof.
  intros Hv. unfold style_assign. rewrite decide_False by done.
  destruct (decide (p = p')) as [->|]; [apply lookup_insert_eq | by apply lookup_insert_ne].
Qed.

Lemma fire_fade (k n d : nat) (w : World) :
  timers w !! k = Some {| callback := CbFade n; delay := d |} →
  ∃ w', fire_timer k w = Ok tt w'
        ∧ timers w' = delete k (timers w) ++ [{| callback := CbDetach n; delay := 300 |}]
        ∧ body_notifications w' = body_notifications w
        ∧ next_node w' = next_node w
        ∧ (∀ x, nodes w !! n = Some x →
             ∃ x', nodes w' !! n = Some x' ∧ className x' = className x
                   ∧ innerHTML x' = innerHTML x ∧ faded x')
        ∧ (∀ n', n' ≠ n → nodes w' !! n' = nodes w !! n').
Proof.
  intros Hk. unfold fire_timer. mrun. rewrite Hk. cbn beta iota.
  unfold run_callback, node_style_assign, update_node, setTimeout. mrun. cbn [callback].
  eexists. split; [reflexivity|]. simpl. split; [done|]. split; [done|]. split; [done|]. split.
  - intros x Hx. rewrite !lookup_alter_eq, Hx. simpl. eexists. split; [done|].
    split; [done|]. split; [done|]. unfold faded. simpl.
    by rewrite !style_assign_lookup.
  - intros n' Hn'. by rewrite !lookup_alter_ne.
Qed.

Lemma fire_detach (k n d : nat) (w : World) :
  timers w !! k = Some {| callback := CbDetach n; delay := d |} →
  fire_timer k w =
    Ok tt (set_body_notifications (filter (λ m, m ≠ n) (body_notifications w))
             (set_timers (delete k (timers w)) w)).
Proof. intros Hk. unfold fire_timer. mrun. by rewrite Hk. Qed.

(** X6. The life of a notification: [showNotification] attaches it and
    schedules its fade after 3000 ms; when that timer fires the element is
    still attached, gets opacity 0 with a transition, and its removal is
    scheduled after 300 ms; when that one fires the element is detached and no
    timer of it is left. *)
Theorem notification_lifecycle (message : string) (type : option string) (w : World) :
  (length (body_notifications w) ≤ 1)%nat →
  ∃ w1 w2 w3,
    showNotification message type w = Ok tt w1
    ∧ fire_timer (length (timers w)) w1 = Ok tt w2
    ∧ fire_timer (length (timers w)) w2 = Ok tt w3
    ∧ body_notifications w1 = [next_node w]
    ∧ timers w1 = timers w ++ [{| callback := CbFade (next_node w); delay := 3000 |}]
    ∧ body_notifications w2 = [next_node w]
    ∧ timers w2 = timers w ++ [{| callback := CbDetach (next_node w); delay := 300 |}]
    ∧ (∃ x, nodes w2 !! next_node w = Some x ∧ faded x
            ∧ innerHTML x = notification_innerHTML message)
    ∧ body_notifications w3 = []
    ∧ timers w3 = timers w
    ∧ head_styles w3 = head_styles w ++ [slideDown_keyframes].
Proof.
  intros Hlen. pose proof (showNotification_single message type w Hlen) as Hone.
  destruct (showNotification_run message type w)
    as (w1 & R1 & _ & Hn1 & Hnext1 & Hh1 & Ht1 & _).
  rewrite R1 in Hone. cbn [world_of] in Hone. exists w1.
  destruct (fire_fade (length (timers w)) (next_node w) 3000 w1)
    as (w2 & R2 & Ht2 & Hb2 & Hnext2 & Hn2 & _).
  { rewrite Ht1. by apply list_lookup_middle. }
  rewrite Ht1, delete_middle, app_nil_r in Ht2. exists w2.
  assert (Hk2 : timers w2 !! length (timers w)
                = Some {| callback := CbDetach (next_node w); delay := 300 |}).
  { rewrite Ht2. by apply list_lookup_middle. }
  eexists. split; [done|]. split; [done|]. split; [by apply fire_detach in Hk2|].
  split; [done|]. split; [done|]. split; [congruence|]. split; [done|]. split.
  - destruct (Hn2 (new_notification message (default "success" type)))
      as (x & Hx & _ & Hi & Hf); [by rewrite Hn1, lookup_insert_eq|]. by exists x.
  - simpl. rewrite Hb2, Hone, Ht2, delete_middle, app_nil_r. split.
    + rewrite filter_cons. by destruct (decide (next_node w ≠ next_node w)).
    + split; [done|].
      pose proof (fire_timer_notifications (length (timers w)) w1) as (_ & Hh2 & _).
      rewrite R2 in Hh2. cbn [world_of] in Hh2. congruence.
Qed.

Lemma notification_lifecycle_witness :
  ∃ w1 w2 w3,
    showNotification "saved" None (page_at 0) = Ok tt w1
    ∧ fire_timer 0 w1 = Ok tt w2 ∧ fire_timer 0 w2 = Ok tt w3
    ∧ body_notifications w1 = [0] ∧ body_notifications w2 = [0] ∧ body_notifications w3 = [].
Proof.
  destruct (notification_lifecycle "saved" None (page_at 0))
    as (w1 & w2 & w3 & R1 & R2 & R3 & B1 & _ & B2 & _ & _ & B3 & _); [simpl; lia|].
  exists w1, w2, w3. done.
Defined.

(** ** Timers of older notifications *)

Lemma timers_fresh_modify (f : World → World) :
  (∀ w, timers (f w) = timers w ∧ next_node (f w) = next_node w) →
  preserves (keeps timers_fresh) (modify f).
Proof.
  intros Hf w Hw t n. unfold modify. simpl. destruct (Hf w) as [-> ->]. apply Hw.
Qed.

Lemma timers_fresh_setTimeout (cb : Callback) (ms : nat) :
  (∀ n, cb ≠ CbFade n ∧ cb ≠ CbDetach n) →
  preserves (keeps timers_fresh) (setTimeout cb ms).
Proof.
  intros Hcb w Hw t n. unfold setTimeout, modify. simpl.
  intros [Ht| ->%list_elem_of_singleton]%elem_of_app Hc; [by apply (Hw t)|].
  simpl in Hc. destruct (Hcb n). naive_solver.
Qed.

Lemma timers_fresh_showNotification message type :
  preserves (keeps timers_fresh) (showNotification message type).
Proof.
  intros w Hw t n.
  destruct (showNotification_run message type w) as (w' & Hr & _ & _ & Hn & _ & Ht' & _).
  rewrite Hr. cbn [world_of]. rewrite Hn, Ht'. intros [Ht| ->%list_elem_of_singleton]%elem_of_app Hc.
  - specialize (Hw t n Ht Hc). lia.
  - simpl in Hc. destruct Hc as [[= <-]|[=]]. lia.
Qed.

Ltac timers_fresh_leaf :=
  idtac; lazymatch goal with
  | |- preserves _ (showNotification _ _) => apply timers_fresh_showNotification
  | |- preserves _ (setTimeout (CbFocus _) _) => apply timers_fresh_setTimeout; by intros ?
  | |- preserves _ (setTimeout CbCloseModal _) => apply timers_fresh_setTimeout; by intros ?
  | |- preserves _ (modify _) => apply timers_fresh_modify; intros ?; done
  end.

Lemma timers_fresh_fire_timer k : preserves (keeps timers_fresh) (fire_timer k).
Proof.
  intros w Hw. unfold fire_timer. mrun.
  destruct (timers w !! k) as [[cb d]|] eqn:Ek; [|done]. cbn beta iota.
  set (w0 := set_timers (delete k (timers w)) w).
  assert (Hw0 : timers_fresh w0).
  { intros t n Ht. apply (Hw t n). subst w0. simpl in Ht.
    by apply list_elem_of_delete_inv in Ht. }
  destruct cb as [i| |n|n]; cbn [callback run_callback].
  - done.
  - assert (H : preserves (keeps timers_fresh) closeModal)
      by walk timers_fresh timers_fresh_leaf.
    by apply H.
  - assert (Hn : (n < next_node w)%nat).
    { apply (Hw {| callback := CbFade n; delay := d |}); [|by left].
      by apply list_elem_of_lookup_2 in Ek. }
    unfold node_style_assign, update_node, setTimeout. mrun. simpl.
    intros t n'. simpl. intros [Ht| ->%list_elem_of_singleton]%elem_of_app Hc.
    + by apply (Hw0 t n').
    + simpl in Hc. destruct Hc as [[=]|[= <-]]. done.
  - unfold node_remove, modify. simpl. intros t n' Ht. by apply (Hw0 t n').
Qed.

Ltac timers_fresh_leaf' :=
  idtac; lazymatch goal with
  | |- preserves _ (fire_timer _) => apply timers_fresh_fire_timer
  | _ => timers_fresh_leaf
  end.

Lemma timers_fresh_react (s : Stimulus) : preserves (keeps timers_fresh) (react s).
Proof. destruct s; walk timers_fresh timers_fresh_leaf'. Qed.

Lemma timers_fresh_init : preserves (keeps timers_fresh) init.
Proof. walk timers_fresh timers_fresh_leaf'. Qed.

(** X7. A timer of an older notification never touches a newer one.  The
    timers of notifications only name elements created before (this holds with
    no timer pending and is kept by [init] and by every event, timer,
    animation frame and observer batch); so when a call of [showNotification]
    is followed by any timer that was pending before the call, the
    notification of the call is still the one attached, with its message. *)
Theorem stale_timers_spare_newest
    (l : list Stimulus) (w : World) (message : string) (type : option string) (k : nat) :
  timers_fresh w →
  (length (body_notifications w) ≤ 1)%nat →
  timers_fresh (run_stimuli l w)
  ∧ timers_fresh (world_of (init w))
  ∧ ((k < length (timers w))%nat →
       ∃ w1, showNotification message type w = Ok tt w1
             ∧ body_notifications (world_of (fire_timer k w1)) = [next_node w]
             ∧ notification_of message (default "success" type) (next_node w)
                 (world_of (fire_timer k w1))).
Proof.
  intros Hw Hlen. split; [|split; [by apply timers_fresh_init|]].
  { assert (Hgen : ∀ l' w', timers_fresh w' → timers_fresh (run_stimuli l' w')).
    { induction l' as [|s' l' IH']; intros w' Hw'; simpl; [done|].
      apply IH'. by apply timers_fresh_react. }
    by apply Hgen. }
  intros Hk. pose proof (showNotification_single message type w Hlen) as Hone.
  destruct (showNotification_run message type w)
    as (w1 & R1 & _ & Hn1 & Hnext1 & _ & Ht1 & _).
  rewrite R1 in Hone. cbn [world_of] in Hone. exists w1. split; [done|].
  destruct (fire_timer_notifications k w1) as (_ & _ & Hkeep). cbn zeta in Hkeep.
  split; [|apply Hkeep, notification_of_new; by rewrite Hn1, lookup_insert_eq].
  destruct (lookup_lt_is_Some_2 (timers w) k Hk) as [[cb d] Ek].
  assert (Ek1 : timers w1 !! k = Some {| callback := cb; delay := d |}).
  { rewrite Ht1. by rewrite lookup_app_l. }
  destruct cb as [i| |n|n].
  - unfold fire_timer. mrun. by rewrite Ek1.
  - unfold fire_timer. mrun. rewrite Ek1. cbn beta iota. cbn [callback run_callback].
    unfold closeModal. mrun. simpl. by destruct (modal (elements w1)).
  - destruct (fire_fade k n d w1 Ek1) as (w2 & R2 & _ & B2 & _).
    rewrite R2. cbn [world_of]. congruence.
  - rewrite (fire_detach k n d w1 Ek1). simpl. rewrite Hone, filter_cons.
    assert (n < next_node w)%nat.
    { apply (Hw {| callback := CbDetach n; delay := d |}); [|by right].
      by apply list_elem_of_lookup_2 in Ek. }
    destruct (decide (next_node w ≠ n)); [done|lia].
Qed.

Lemma stale_timers_spare_newest_witness :
  ∃ w0 w1,
    showNotification "first" None (page_at 0) = Ok tt w0
    ∧ showNotification "second" None w0 = Ok tt w1
    ∧ body_notifications (world_of (fire_timer 0 w1)) = [1]
    ∧ notification_of "second" "success" 1 (world_of (fire_timer 0 w1)).
Proof.
  exists (world_of (showNotification "first" None (page_at 0))).
  destruct (stale_timers_spare_newest []
              (world_of (showNotification "first" None (page_at 0))) "second" None 0)
    as (_ & _ & H).
  - intros t n ->%list_elem_of_singleton [[= <-]|[=]]. simpl. lia.
  - simpl. lia.
  - destruct H as (w1 & R1 & B1 & N1); [simpl; lia|].
    exists w1. split; [reflexivity|]. split; [exact R1|]. split; [exact B1 | exact N1].
Defined.

(** * Setting up the scroll animations *)

(** The loop of [setupScrollAnimations] over the elements [l]. *)
Lemma hide_and_observe_run (l : list nat) (index : nat) (w : World) :
  ∃ w',
    forEach_from index l (λ el _,
      el_style_assign el "opacity" "0";;
      el_style_assign el "transform" "translateY(20px)";;
      el_style_assign el "transition" "opacity 0.5s ease, transform 0.5s ease";;
      observe el) w = Ok tt w'
    ∧ w' = set_observed (observed w') (set_elems (elems w') w)
    ∧ observed w' = list_to_set l ∪ observed w
    ∧ (∀ i, i ∈ l → hidden_for_reveal (get_el i w'))
    ∧ (∀ i, i ∉ l → get_el i w' = get_el i w)
    ∧ (∀ i, classList (get_el i w') = classList (get_el i w)).
Proof.
  revert index w. induction l as [|x l IH]; intros index w.
  - exists w. split; [done|]. split; [by destruct w|]. split; [set_solver|].
    split; [by intros i ?%elem_of_nil|]. done.
  - rewrite forEach_from_cons. unfold el_style_assign at 1 2 3, observe at 1, update_el. mrun.
    match goal with |- context [forEach_from _ _ _ ?w0] => set (w1 := w0) end.
    assert (Hx : hidden_for_reveal (get_el x w1)
                 ∧ classList (get_el x w1) = classList (get_el x w)).
    { subst w1. unfold hidden_for_reveal, get_el. cbn [elems set_elems set_observed].
      rewrite !lookup_insert_eq. cbn [default from_option id style classList with_style].
      by rewrite !style_assign_lookup. }
    assert (Hother : ∀ i, i ≠ x → get_el i w1 = get_el i w).
    { intros i Hi. subst w1. unfold get_el. cbn [elems set_elems set_observed].
      by rewrite !lookup_insert_ne. }
    assert (Hobs : observed w1 = {[x]} ∪ observed w) by done.
    assert (Hrest : w1 = set_observed (observed w1) (set_elems (elems w1) w)) by done.
    clearbody w1. destruct (IH (S index) w1) as (w' & Hr & Hw' & Ho & Hh & Hk & Hc).
    exists w'. split; [done|]. split; [by rewrite Hw', Hrest|].
    split; [rewrite Ho, Hobs; set_solver|]. split; [|split].
    + intros i [->|Hi]%elem_of_cons; [|by apply Hh].
      destruct (decide (x ∈ l)); [by apply Hh|]. rewrite Hk by done. apply Hx.
    + intros i Hi. rewrite Hk by set_solver. apply Hother. set_solver.
    + intros i. rewrite Hc. destruct (decide (i = x)) as [->|]; [apply Hx|by rewrite Hother].
Qed.

Lemma setupScrollAnimations_run (w : World) :
  (has_IntersectionObserver (window w) = false → setupScrollAnimations w = Ok tt w)
  ∧ (has_IntersectionObserver (window w) = true →
       ∃ w', setupScrollAnimations w = Ok tt w'
             ∧ observed w' = list_to_set (animatedElements (document w)) ∪ observed w
             ∧ (∀ i, i ∈ animatedElements (document w) →
                  hidden_for_reveal (get_el i w') ∧ i ∈ observed w')
             ∧ (∀ i, i ∉ animatedElements (document w) → get_el i w' = get_el i w)
             ∧ (∀ i, classList (get_el i w') = classList (get_el i w))
             ∧ head_styles w' = head_styles w ++ [animate_in_css]
             ∧ w' = set_head_styles (head_styles w')
                      (set_observed (observed w') (set_elems (elems w') w))).
Proof.
  destruct (hide_and_observe_run (animatedElements (document w)) 0 w)
    as (w1 & Hr & Hw1 & Ho & Hh & Hk & Hc).
  assert (Heq : setupScrollAnimations w =
            if negb (has_IntersectionObserver (window w)) then Ok tt w
            else head_appendChild animate_in_css w1).
  { unfold setupScrollAnimations, forEach.
    unfold mbind at 1 2, M_bind at 1 2, gets. cbn beta iota.
    destruct (negb _); [done|]. cbn beta iota.
    unfold mbind at 1, M_bind at 1. by rewrite Hr. }
  rewrite Heq. split; intros ->; [done|]. cbn [negb].
  unfold head_appendChild, modify.
  eexists. split; [reflexivity|]. simpl. split; [done|].
  split; [intros i Hi; split; [by apply Hh | rewrite Ho; set_solver]|].
  split; [done|]. split; [done|]. rewrite Hw1. simpl. done.
Qed.

(** X8. [setupScrollAnimations]: without [IntersectionObserver] it leaves the
    page as it is (nothing is hidden); with it, it never throws, hides every
    animated element (opacity 0, shifted, with a transition) and observes
    it, so that no element is hidden without being observed, leaves the other
    elements and all class lists alone, and appends one [style] element with
    the [animate-in] rule to the head. *)
Theorem scroll_animations_setup (w : World) :
  (has_IntersectionObserver (window w) = false → setupScrollAnimations w = Ok tt w)
  ∧ (has_IntersectionObserver (window w) = true →
       ∃ w', setupScrollAnimations w = Ok tt w'
             ∧ observed w' = list_to_set (animatedElements (document w)) ∪ observed w
             ∧ (∀ i, i ∈ animatedElements (document w) →
                  hidden_for_reveal (get_el i w') ∧ i ∈ observed w')
             ∧ (∀ i, i ∉ animatedElements (document w) → get_el i w' = get_el i w)
             ∧ (∀ i, classList (get_el i w') = classList (get_el i w))
             ∧ head_styles w' = head_styles w ++ [animate_in_css]
             ∧ w' = set_head_styles (head_styles w')
                      (set_observed (observed w') (set_elems (elems w') w))).
Proof. apply setupScrollAnimations_run. Qed.

Lemma scroll_animations_setup_witness :
  setupScrollAnimations (page_animated false) = Ok tt (page_animated false)
  ∧ ∃ w', setupScrollAnimations (page_animated true) = Ok tt w'
          ∧ observed w' = {[20; 21]}
          ∧ hidden_for_reveal (get_el 21 w').
Proof.
  destruct (scroll_animations_setup (page_animated false)) as [Hno _].
  destruct (scroll_animations_setup (page_animated true)) as [_ Hyes].
  split; [by apply Hno|].
  destruct Hyes as (w' & Hr & Ho & Hh & _); [reflexivity|].
  exists w'. split; [exact Hr|]. split.
  - rewrite Ho. simpl. set_solver.
  - apply Hh. simpl. set_solver.
Defined.

(** * The listeners [init] attaches *)

Lemma forEach_letters (l : list nat) index w :
  forEach_from index l (λ letter _,
    addEventListener (TElem letter) "mouseenter" HLetterEnter;;
    addEventListener (TElem letter) "mouseleave" HLetterLeave) w
  = Ok tt (set_listeners (listeners w ++ (l ≫= letter_listeners)) w).
Proof.
  revert index w. induction l as [|x l IH]; intros index w.
  - simpl. rewrite app_nil_r. by destruct w.
  - rewrite forEach_from_cons. unfold addEventListener at 1 2, modify. mrun. rewrite IH.
    simpl. by rewrite <- !app_assoc.
Qed.

Lemma listeners_kept_modify (L : list Listener) (f : World → World) :
  (∀ w, listeners (f w) = listeners w) →
  preserves (keeps (λ w, listeners w = L)) (modify f).
Proof. intros Hf w Hw. unfold modify. simpl. by rewrite Hf. Qed.

Ltac listeners_leaf :=
  idtac; lazymatch goal with
  | |- preserves _ (modify _) => apply listeners_kept_modify; intros ?; reflexivity
  end.

Lemma init_listeners_run (w : World) :
  listeners (world_of (init w)) = listeners w ++ all_listeners w.
Proof.
  unfold init. unfold mbind at 1, M_bind at 1. rewrite initEventListeners_run.
  set (w1 := set_listeners _ _).
  unfold mbind at 1, M_bind at 1.
  assert (H2 : ∃ w2, setupScrollAnimations w1 = Ok tt w2 ∧ listeners w2 = listeners w1
                     ∧ elements w2 = elements w ∧ document w2 = document w).
  { destruct (setupScrollAnimations_run w1) as [Hno Hyes].
    destruct (has_IntersectionObserver (window w1)).
    - destruct Hyes as (w2 & Hr & _ & _ & _ & _ & _ & Hw2); [done|].
      exists w2. split; [done|]. by rewrite Hw2.
    - exists w1. by rewrite Hno. }
  destruct H2 as (w2 & -> & L2 & E2 & D2).
  unfold mbind at 1, M_bind at 1. unfold setupSmoothScroll, forEach at 1.
  unfold mbind at 1, M_bind at 1, gets at 1. cbn beta iota.
  rewrite forEach_addEventListener. set (w3 := set_listeners _ w2).
  unfold mbind at 1, M_bind at 1. unfold setupBannerInteraction, forEach at 1.
  unfold mbind at 1, M_bind at 1, gets at 1. cbn beta iota.
  rewrite forEach_letters. set (w4 := set_listeners _ w3).
  assert (Hrest : preserves (keeps (λ w0, listeners w0 = listeners w4))
            (handleHeaderScroll ≫= λ _, handleBackToTopVisibility ≫= λ _,
               console_log LogInitialized))
    by walk (λ w0 : World, listeners w0 = listeners w4) listeners_leaf.
  rewrite (Hrest w4 eq_refl). subst w4 w3. simpl. rewrite L2, D2, E2. subst w1. simpl.
  unfold all_listeners, anchor_listener. by rewrite <- !app_assoc.
Qed.

(** X9. [init] attaches all the listeners before it first touches the header:
    whether it returns or ends with an exception (a page without a header),
    the page then has, after the listeners it had, the scroll listener, one
    click listener on the back-to-top button, on each modal trigger, on the
    close control and on the overlay if present, the submit listener if the
    form is present, the keydown listener, one click listener per anchor and
    a mouseenter and a mouseleave listener per banner letter, in this order. *)
Theorem init_attaches_listeners (w : World) :
  listeners (world_of (init w)) = listeners w ++ all_listeners w
  ∧ (submit_listener ∈ all_listeners w ↔ is_Some (waitlistForm w)).
Proof.
  split; [apply init_listeners_run|]. split.
  - intros Hin. destruct (waitlistForm w) eqn:Ef; [done|]. exfalso.
    assert (Hall : Forall (λ l, l_handler l ≠ HFormSubmit) (all_listeners w)).
    { unfold all_listeners, init_listeners, click_listener. rewrite Ef.
      repeat apply Forall_app_2; try (repeat constructor; done).
      - destruct (backToTop (elements w)); repeat constructor; done.
      - apply Forall_fmap, Forall_true. done.
      - destruct (modalClose (elements w)); repeat constructor; done.
      - destruct (modalOverlay (elements w)); repeat constructor; done.
      - apply Forall_fmap, Forall_true. done.
      - apply Forall_bind, Forall_true. intros i. repeat constructor; done. }
    rewrite Forall_forall in Hall. by apply (Hall _ Hin).
  - intros [f Hf]. unfold all_listeners, init_listeners. rewrite Hf. set_solver.
Qed.

Example init_without_header :
  (∃ w', init page_wired = Throw TypeError w')
  ∧ listeners (world_of (init page_wired)) =
      [{| l_target := TWindow; l_type := "scroll"; l_handler := HScroll |};
       {| l_target := TElem 1; l_type := "click"; l_handler := HScrollToTop |};
       {| l_target := TElem 9; l_type := "click"; l_handler := HOpenModal |};
       {| l_target := TElem 10; l_type := "click"; l_handler := HOpenModal |};
       {| l_target := TElem 6; l_type := "click"; l_handler := HCloseModal |};
       {| l_target := TForm; l_type := "submit"; l_handler := HFormSubmit |};
       {| l_target := TDocument; l_type := "keydown"; l_handler := HKeyboard |};
       {| l_target := TElem 7; l_type := "click"; l_handler := HAnchorClick |};
       {| l_target := TElem 30; l_type := "mouseenter"; l_handler := HLetterEnter |};
       {| l_target := TElem 30; l_type := "mouseleave"; l_handler := HLetterLeave |}].
Proof.
  split; [eexists; vm_compute; reflexivity|].
  rewrite init_listeners_run. vm_compute. reflexivity.
Qed.

(** * Banner letters *)

(** X10. Hovering a banner letter: [mouseenter] sets the inline transform
    [scale(1.3) rotate(-10deg)] and [mouseleave] removes the inline transform,
    whatever it was before the hover; classes, the other declarations and the
    other elements are left alone, so entering and leaving restores the letter
    exactly when it had no inline transform. *)
Theorem letter_hover (w : World) (i : nat) :
  ∃ w1 w2,
    letter_mouseenter i w = Ok tt w1
    ∧ letter_mouseleave i w1 = Ok tt w2
    ∧ style (get_el i w1) !! "transform" = Some (Txt "scale(1.3) rotate(-10deg)")
    ∧ style (get_el i w2) = delete "transform" (style (get_el i w))
    ∧ classList (get_el i w2) = classList (get_el i w)
    ∧ (∀ j, j ≠ i → get_el j w2 = get_el j w)
    ∧ (style (get_el i w) !! "transform" = None → get_el i w2 = get_el i w)
    ∧ w2 = set_elems (elems w2) w.
Proof.
  unfold letter_mouseenter, letter_mouseleave, el_style_assign, update_el, modify.
  eexists _, _. split; [reflexivity|]. split; [reflexivity|].
  unfold get_el. cbn [elems set_elems]. rewrite !lookup_insert_eq.
  cbn [default from_option id style classList with_style].
  split; [by rewrite style_assign_lookup|].
  assert (Hs : style_assign "transform" ""
                 (style_assign "transform" "scale(1.3) rotate(-10deg)"
                    (style (default blank (elems w !! i))))
               = delete "transform" (style (default blank (elems w !! i)))).
  { unfold style_assign. rewrite decide_True, decide_False by done.
    by rewrite delete_insert_eq. }
  split; [done|]. split; [done|].
  split; [by intros j Hj; rewrite !lookup_insert_ne|]. split; [|done].
  intros Hnone. rewrite Hs, delete_id by done. by destruct (default blank (elems w !! i)).
Qed.

(** * The focus timer of the modal *)

Lemma fire_focus (k i d : nat) (w : World) :
  timers w !! k = Some {| callback := CbFocus i; delay := d |} →
  fire_timer k w = Ok tt (set_focused (Some i) (set_timers (delete k (timers w)) w)).
Proof. intros Hk. unfold fire_timer. mrun. by rewrite Hk. Qed.

(** X11. The focus timer of [openModal] is not cancelled by [closeModal]:
    on a page whose modal has an input, opening schedules the focus after
    300 ms, closing leaves the timer pending, and when it fires the input is
    focused although the modal is closed.  Without an input in the modal no
    timer is scheduled. *)
Theorem focus_timer_survives_close (w : World) (m : nat) :
  modal (elements w) = Some m →
  (modal_input (document w) = None →
     ∃ w1, openModal w = Ok tt w1 ∧ timers w1 = timers w)
  ∧ (∀ i, modal_input (document w) = Some i →
       ∃ w1 w2 w3,
         openModal w = Ok tt w1
         ∧ timers w1 = timers w ++ [{| callback := CbFocus i; delay := 300 |}]
         ∧ closeModal w1 = Ok tt w2
         ∧ timers w2 = timers w1
         ∧ fire_timer (length (timers w)) w2 = Ok tt w3
         ∧ focused w3 = Some i
         ∧ ¬ has_class "modal--active" m w3
         ∧ timers w3 = timers w).
Proof.
  intros Hm. rewrite (openModal_run w m Hm). unfold focus_timers. split.
  - intros ->. eexists. split; [done|]. simpl. by rewrite app_nil_r.
  - intros i ->. eexists _, _, _. split; [done|]. split; [done|].
    rewrite (closeModal_run _ m) by done. split; [done|]. split; [done|].
    rewrite (fire_focus (length (timers w)) i 300) by (by apply list_lookup_middle).
    split; [done|]. split; [done|]. split.
    + intros H.
      apply (has_class_remove "modal--active" m "modal--active" m) in H. naive_solver.
    + simpl. by rewrite delete_middle, app_nil_r.
Qed.

Lemma focus_timer_survives_close_witness :
  ∃ w1 w2 w3,
    openModal (page_at 0) = Ok tt w1 ∧ closeModal w1 = Ok tt w2
    ∧ fire_timer 0 w2 = Ok tt w3
    ∧ focused w3 = Some 3 ∧ ¬ has_class "modal--active" 2 w3.
Proof.
  destruct (focus_timer_survives_close (page_at 0) 2 eq_refl) as [_ H].
  destruct (H 3 eq_refl) as (w1 & w2 & w3 & R1 & _ & R2 & _ & R3 & F & C & _).
  exists w1, w2, w3. done.
Defined.

(** * Submissions: the close timer and missing inputs *)

Lemma fire_closeModal (k d m : nat) (w : World) :
  timers w !! k = Some {| callback := CbCloseModal; delay := d |} →
  modal (elements w) = Some m →
  fire_timer k w =
    Ok tt (set_body_overflow ""
             (world_of (classList_remove m "modal--active"
                          (set_timers (delete k (timers w)) w)))).
Proof.
  intros Hk Hm. unfold fire_timer. mrun. rewrite Hk. cbn beta iota.
  cbn [callback run_callback]. by rewrite (closeModal_run _ m).
Qed.

(** X12. After a valid submission the modal is closed by the timer, not by
    the handler: the submission leaves the class [modal--active] and the
    body's overflow as they were and schedules [closeModal] for 1500 ms; when
    that timer fires the class is removed and the body's overflow emptied, the
    fields of the form still have their default values, and the success
    notification is still attached with its own timer pending. *)
Theorem submit_then_close (w : World) (f : Form) (name email : Input) (m : nat)
    (key : string) :
  waitlistForm w = Some f →
  text_input f = Some name →
  email_input f = Some email →
  value name ≠ [] →
  email_shape (value email) →
  modal (elements w) = Some m →
  (length (body_notifications w) ≤ 1)%nat →
  ∃ w1 w2,
    dispatch submit_listener key w = Ok tt w1
    ∧ (has_class "modal--active" m w1 ↔ has_class "modal--active" m w)
    ∧ body_overflow w1 = body_overflow w
    ∧ timers w1 !! S (length (timers w))
      = Some {| callback := CbCloseModal; delay := 1500 |}
    ∧ fire_timer (S (length (timers w))) w1 = Ok tt w2
    ∧ ¬ has_class "modal--active" m w2
    ∧ body_overflow w2 = ""
    ∧ waitlistForm w2
      = Some {| text_input := Some {| value := defaultValue name;
                                      defaultValue := defaultValue name |};
                email_input := Some {| value := defaultValue email;
                                       defaultValue := defaultValue email |} |}
    ∧ body_notifications w2 = [next_node w]
    ∧ timers w2 = timers w ++ [{| callback := CbFade (next_node w); delay := 3000 |}].
Proof.
  intros Hf Hn He Hname Hshape Hm Hlen.
  assert (Hemail : value email ≠ []).
  { destruct Hshape as (a & b & c & -> & _). by destruct a. }
  unfold dispatch, submit_listener. cbn [l_handler l_target]. mrun.
  rewrite (handleFormSubmit_run _ f name email) by done. cbn zeta.
  destruct (js_not (value name)) eqn:En; [by apply js_not_true in En|].
  destruct (js_not (value email)) eqn:Ee; [by apply js_not_true in Ee|].
  apply emailRegex_test_shape in Hshape. rewrite Hshape. cbn [orb negb].
  set (w0 := set_console _ _).
  pose proof (showNotification_single "Welcome to the Mojik family! 🎉" (Some "success")
                w0 Hlen) as Hone.
  destruct (showNotification_run "Welcome to the Mojik family! 🎉" (Some "success") w0)
    as (w1 & Hr & _ & _ & _ & _ & Ht & Hel & Hform & Hov & _).
  rewrite Hr in Hone. cbn [world_of] in Hone.
  mrun. rewrite Hr. unfold target_reset, setTimeout. mrun.
  set (w1' := set_timers _ _).
  assert (Ht1 : timers w1' = (timers w ++ [{| callback := CbFade (next_node w); delay := 3000 |}])
                             ++ [{| callback := CbCloseModal; delay := 1500 |}]).
  { subst w1'. simpl. by rewrite Ht. }
  assert (Hk : timers w1' !! S (length (timers w))
               = Some {| callback := CbCloseModal; delay := 1500 |}).
  { rewrite Ht1. apply list_lookup_middle. rewrite length_app. simpl. lia. }
  assert (Hm1 : modal (elements w1') = Some m).
  { subst w1'. simpl. assert (elements w1 = elements w0) as ->; [|done].
    unfold showNotification, createNotification, node_remove, head_appendChild,
      body_appendChild, setTimeout in Hr. revert Hr. mrun.
    destruct (body_notifications w0); cbn beta iota; intros [= <-]; done. }
  exists w1'. eexists. split; [done|].
  split; [unfold has_class, get_el; subst w1'; simpl; rewrite Hel; done|].
  split; [subst w1'; simpl; rewrite Hov; done|]. split; [done|].
  split; [by apply (fire_closeModal _ 1500 m)|].
  split; [|split; [done|split; [|split]]].
  - intros H. apply (has_class_remove "modal--active" m "modal--active" m) in H. naive_solver.
  - simpl. rewrite Hform. subst w0. simpl. rewrite Hf.
    cbn [fmap option_fmap option_map]. unfold Form_reset. by rewrite Hn, He.
  - done.
  - simpl. rewrite Ht. subst w0. simpl.
    replace (S (length (timers w))) with (length (timers w ++
      [{| callback := CbFade (next_node w); delay := 3000 |}]))
      by (rewrite length_app; simpl; lia).
    by rewrite delete_middle, app_nil_r.
Qed.

Lemma submit_then_close_witness :
  ∃ w0 w1 w2,
    openModal (page_with_form "A" "a@b.com") = Ok tt w0
    ∧ has_class "modal--active" 2 w0
    ∧ body_overflow w0 = "hidden"
    ∧ dispatch submit_listener "" w0 = Ok tt w1
    ∧ has_class "modal--active" 2 w1
    ∧ body_overflow w1 = "hidden"
    ∧ fire_timer 2 w1 = Ok tt w2
    ∧ ¬ has_class "modal--active" 2 w2
    ∧ body_overflow w2 = ""
    ∧ waitlistForm w2 = Some {| text_input := Some {| value := []; defaultValue := [] |};
                                email_input := Some {| value := []; defaultValue := [] |} |}
    ∧ body_notifications w2 = [0].
Proof.
  exists (world_of (openModal (page_with_form "A" "a@b.com"))).
  assert (Hopen : has_class "modal--active" 2
                    (world_of (openModal (page_with_form "A" "a@b.com")))).
  { apply has_class_add. by left. }
  destruct (submit_then_close (world_of (openModal (page_with_form "A" "a@b.com")))
              _ _ _ 2 "" eq_refl eq_refl eq_refl)
    as (w1 & w2 & R1 & C1 & O1 & _ & R2 & C & O & F & B & _).
  - discriminate.
  - apply emailRegex_test_shape. vm_compute. reflexivity.
  - reflexivity.
  - vm_compute. lia.
  - exists w1, w2. split; [reflexivity|]. split; [exact Hopen|]. split; [reflexivity|].
    split; [exact R1|]. split; [by apply C1|]. split; [exact O1|]. split; [exact R2|].
    split; [exact C|]. split; [exact O|]. split; [exact F|]. exact B.
Defined.

(** X13. A submit event on a form that lacks its text or its email input:
    the handler suppresses the default submission and then ends with a
    [TypeError]; no notification is emitted, the form is not reset and nothing
    is scheduled. *)
Theorem submit_without_input (w : World) (f : Form) (key : string) :
  waitlistForm w = Some f →
  text_input f = None ∨ email_input f = None →
  dispatch submit_listener key w = Throw TypeError (set_defaultPrevented true w).
Proof.
  intros Hf Hnone. unfold dispatch, submit_listener. cbn [l_handler l_target].
  unfold handleFormSubmit, preventDefault, target_value. mrun. simpl. rewrite Hf. simpl.
  destruct (text_input f) as [name|] eqn:En; simpl.
  - destruct Hnone as [|He]; [done|]. rewrite Hf. simpl. rewrite He. by destruct w.
  - by destruct w.
Qed.

Lemma submit_without_input_witness :
  dispatch submit_listener ""
    (set_waitlistForm (Some {| text_input := None; email_input := None |}) (page_at 0))
  = Throw TypeError
      (set_defaultPrevented true
         (set_waitlistForm (Some {| text_input := None; email_input := None |}) (page_at 0))).
Proof.
  apply (submit_without_input _ {| text_input := None; email_input := None |});
    [reflexivity | by left].
Defined.

(** * The addresses the form accepts *)

Lemma count_at_app (s t : list N) : count_at (s ++ t) = count_at s + count_at t.
Proof. unfold count_at. by rewrite filter_app, length_app. Qed.

Lemma count_at_cons (c : N) (s : list N) :
  count_at (c :: s) = (if decide (c = 64%N) then 1 else 0) + count_at s.
Proof. unfold count_at. rewrite filter_cons. by destruct (decide _). Qed.

Lemma count_at_zero (s : list N) : count_at s = 0 ↔ Forall (λ c, c ≠ 64%N) s.
Proof.
  induction s as [|c s IH]; [by split; [constructor|]|].
  rewrite count_at_cons, Forall_cons. destruct (decide (c = 64%N)); [|naive_solver lia].
  split; [lia | naive_solver].
Qed.

(** X14. The addresses [emailRegex] accepts are exactly the strings with one
    [@], no white space, a non-empty part before the [@] and, after it, a dot
    with something before and something after it. *)
Theorem email_accepted (s : jsstring) :
  Regex.test emailRegex s = true
  ↔ count_at s = 1
    ∧ Forall (λ c, is_js_space c = false) s
    ∧ ∃ a b c : jsstring, s = a ++ 64%N :: b ++ 46%N :: c ∧ a ≠ [] ∧ b ≠ [] ∧ c ≠ [].
Proof.
  rewrite emailRegex_test_shape. unfold email_shape, email_char. split.
  - intros (a & b & c & -> & Ha & Hb & Hc & Fa & Fb & Fc).
    assert (Hz : ∀ l : jsstring, Forall (λ c, is_js_space c = false ∧ c ≠ 64%N) l →
              count_at l = 0 ∧ Forall (λ c, is_js_space c = false) l).
    { intros l Hl. split; [apply count_at_zero|]; eapply Forall_impl; eauto; naive_solver. }
    destruct (Hz a Fa) as [Ca Sa], (Hz b Fb) as [Cb Sb], (Hz c Fc) as [Cc Sc].
    split; [|split].
    + rewrite count_at_app, count_at_cons, count_at_app, count_at_cons, Ca, Cb, Cc.
      rewrite decide_True, decide_False by done. done.
    + apply Forall_app. split; [done|]. constructor; [done|].
      apply Forall_app. split; [done|]. by constructor.
    + by exists a, b, c.
  - intros (Hcount & Hsp & a & b & c & -> & Ha & Hb & Hc).
    rewrite count_at_app, count_at_cons, count_at_app, count_at_cons in Hcount.
    rewrite decide_True, decide_False in Hcount by done.
    apply Forall_app in Hsp as [Sa Hsp]. apply Forall_cons in Hsp as [_ Hsp].
    apply Forall_app in Hsp as [Sb Hsp]. apply Forall_cons in Hsp as [_ Sc].
    assert (Hz : ∀ l : jsstring, count_at l = 0 → Forall (λ c, is_js_space c = false) l →
              Forall (λ c, is_js_space c = false ∧ c ≠ 64%N) l).
    { intros l Hl%count_at_zero Hs. rewrite Forall_forall in *. naive_solver. }
    exists a, b, c. split; [done|]. do 3 (split; [done|]).
    split; [apply Hz; [lia | done]|]. split; apply Hz; (lia || done).
Qed.

Example email_rejected :
  Regex.test emailRegex (js "a@b") = false
  ∧ Regex.test emailRegex (js "a b@c.d") = false
  ∧ Regex.test emailRegex (js "a@b@c.d") = false
  ∧ Regex.test emailRegex (js "@b.c") = false
  ∧ Regex.test emailRegex (js "a@.c") = false
  ∧ Regex.test emailRegex (js "a@b.") = false
  ∧ Regex.test emailRegex (js "a@b..c") = true
  ∧ Regex.test emailRegex [97; 160; 64; 98; 46; 99]%N = false.
Proof. vm_compute. repeat split. Qed.

(** * [debounce] and [throttle] *)

(** ** [debounce] *)

Lemma d_single_step {Args : Type} (s : Debounced Args) (x : DStep Args) :
  d_single s → d_single (d_step s x).
Proof.
  intros Hs. destruct x as [args|id]; simpl.
  - intros id' a. unfold d_executedFunction, d_clearTimeout. simpl.
    destruct (decide (d_next s = id')) as [->|Hne]; [done|].
    rewrite lookup_insert_ne by done. intros H. exfalso.
    destruct (d_timeout s) as [t|] eqn:Et.
    + destruct (decide (t = id')) as [->|]; [by rewrite lookup_delete_eq in H|].
      rewrite lookup_delete_ne in H by done. apply Hs in H. congruence.
    + apply Hs in H. congruence.
  - unfold d_fire. destruct (d_pending s !! id) as [args|] eqn:Eid; [|done].
    intros id' a. unfold d_clearTimeout. simpl.
    pose proof (Hs id args Eid) as Ht. rewrite Ht. intros H.
    destruct (decide (id = id')) as [->|Hne]; [done|].
    rewrite !lookup_delete_ne in H by done. apply Hs in H. congruence.
Qed.

Lemma d_single_run {Args : Type} (l : list (DStep Args)) (s : Debounced Args) :
  d_single s → d_single (d_run l s).
Proof.
  revert s. induction l as [|x l IH]; intros s Hs; [done|].
  simpl. by apply IH, d_single_step.
Qed.

Lemma d_single_pending {Args : Type} (s : Debounced Args) :
  d_single s →
  d_pending s = ∅ ∨ ∃ id args, d_timeout s = Some id ∧ d_pending s = {[id := args]}.
Proof.
  intros Hs. destruct (d_timeout s) as [id|] eqn:Et.
  - destruct (d_pending s !! id) as [args|] eqn:Eid.
    + right. exists id, args. split; [done|]. apply map_eq. intros j.
      destruct (decide (id = j)) as [<-|Hne]; [by rewrite lookup_singleton_eq|].
      rewrite lookup_singleton_ne by done. destruct (d_pending s !! j) eqn:Ej; [|done].
      apply Hs in Ej. congruence.
    + left. apply map_eq. intros j. rewrite lookup_empty.
      destruct (d_pending s !! j) eqn:Ej; [|done]. apply Hs in Ej as Ht'. congruence.
  - left. apply map_eq. intros j. rewrite lookup_empty.
    destruct (d_pending s !! j) eqn:Ej; [|done]. apply Hs in Ej. congruence.
Qed.

Lemma d_calls_sublist {Args : Type} (l : list (DStep Args)) (s : Debounced Args) :
  d_single s →
  d_calls (d_run l s) ++ d_waiting (d_run l s)
    `sublist_of` d_calls s ++ d_waiting s ++ d_args l.
Proof.
  revert s. induction l as [|x l IH]; intros s Hs.
  - simpl. by rewrite app_nil_r.
  - simpl. etrans; [apply IH; by apply d_single_step|].
    destruct x as [args|id]; simpl.
    + unfold d_waiting at 1. simpl.
      assert (Hclear : d_clearTimeout s = ∅).
      { unfold d_clearTimeout. destruct (d_single_pending s Hs) as [He|(id & a & Ht & He)].
        - rewrite He. destruct (d_timeout s); [apply delete_empty | done].
        - rewrite Ht, He. apply delete_singleton_eq. }
      rewrite Hclear, insert_empty, map_to_list_singleton. simpl.
      apply sublist_app; [done|]. by apply sublist_inserts_l.
    + unfold d_fire. destruct (d_pending s !! id) as [args|] eqn:Eid; [|done].
      pose proof (Hs id args Eid) as Ht.
      destruct (d_single_pending s Hs) as [He|(id' & a & Ht' & He)];
        [by rewrite He in Eid|].
      assert (id' = id) as -> by congruence.
      rewrite He, lookup_singleton_eq in Eid. injection Eid as ->.
      unfold d_waiting, d_clearTimeout. simpl. rewrite Ht, He.
      rewrite delete_singleton_eq, delete_empty, map_to_list_empty, map_to_list_singleton.
      simpl. by rewrite <- app_assoc.
Qed.

(** A burst of calls ending with [args] leaves one timer pending, holding
    [args]. *)
Lemma d_burst {Args : Type} (l : list Args) (args : Args) (s : Debounced Args) :
  d_single s →
  ∃ id, d_timeout (d_run (DCall <$> (l ++ [args])) s) = Some id
        ∧ d_pending (d_run (DCall <$> (l ++ [args])) s) = {[id := args]}
        ∧ d_calls (d_run (DCall <$> (l ++ [args])) s) = d_calls s.
Proof.
  revert s. induction l as [|a l IH]; intros s Hs.
  - simpl. exists (d_next s). split; [done|]. split; [|done].
    assert (Hclear : d_clearTimeout s = ∅).
    { unfold d_clearTimeout. destruct (d_single_pending s Hs) as [He|(id & a & Ht & He)].
      - rewrite He. destruct (d_timeout s); [apply delete_empty | done].
      - rewrite Ht, He. apply delete_singleton_eq. }
    by rewrite Hclear, insert_empty.
  - simpl. destruct (IH (d_executedFunction a s)) as (id & Ht & Hp & Hc).
    { by apply (d_single_step s (DCall a)). }
    exists id. done.
Qed.

(** X15. A debounced function calls [func] only when its timer fires, and
    with the arguments of the latest call: at most one timer is pending at any
    time; the calls of [func] are, in order, arguments of calls of the debounced
    function, each used at most once; and after a burst of calls, [func] has
    not been called, one timer is pending, and when it fires [func] is called
    once with the arguments of the last call of the burst. *)
Theorem debounce_calls_last {Args : Type} (l : list (DStep Args)) (burst : list Args)
    (args : Args) :
  (size (d_pending (d_run l debounce)) ≤ 1)%nat
  ∧ d_calls (d_run l debounce) `sublist_of` d_args l
  ∧ ∃ id,
      d_timeout (d_run (DCall <$> (burst ++ [args])) (d_run l debounce)) = Some id
      ∧ d_calls (d_run (DCall <$> (burst ++ [args])) (d_run l debounce))
        = d_calls (d_run l debounce)
      ∧ d_calls (d_fire id (d_run (DCall <$> (burst ++ [args])) (d_run l debounce)))
        = d_calls (d_run l debounce) ++ [args]
      ∧ d_pending (d_fire id (d_run (DCall <$> (burst ++ [args])) (d_run l debounce))) = ∅.
Proof.
  assert (H0 : d_single (@debounce Args)).
  { intros id a. unfold debounce. simpl. by rewrite lookup_empty. }
  pose proof (d_single_run l debounce H0) as Hl.
  split; [|split].
  - destruct (d_single_pending _ Hl) as [->|(id & a & _ & ->)].
    + rewrite map_size_empty. lia.
    + rewrite map_size_singleton. lia.
  - pose proof (d_calls_sublist l debounce H0) as Hsub.
    unfold d_waiting at 2 in Hsub. simpl in Hsub. rewrite map_to_list_empty in Hsub.
    simpl in Hsub. etrans; [|exact Hsub]. by apply sublist_inserts_r.
  - destruct (d_burst burst args _ Hl) as (id & Ht & Hp & Hc). exists id.
    set (s1 := d_run (DCall <$> _) _) in *.
    split; [done|]. split; [done|]. unfold d_fire. rewrite Hp, lookup_singleton_eq.
    simpl. rewrite Hc. split; [done|]. unfold d_clearTimeout. simpl. rewrite Ht.
    by rewrite delete_singleton_eq, delete_empty.
Qed.

(** ** [throttle] *)

Lemma t_step_spec {Args : Type} (throws : Args → bool) (s : Throttled Args) (x : TStep Args) :
  t_armed s →
  t_armed (t_step throws s x)
  ∧ (length (t_returned throws (t_step throws s x)) + t_pending s
     ≤ length (t_returned throws s) + t_pending (t_step throws s x)
       + match x with TFire => 1 | TCall _ => 0 end)%nat
  ∧ ∃ used, t_calls (t_step throws s x) = t_calls s ++ used
            ∧ used `sublist_of` match x with TCall args => [args] | TFire => [] end.
Proof.
  unfold t_armed, t_returned. intros Hs. destruct x as [args|]; simpl.
  - unfold t_executedFunction. destruct (t_inThrottle s) eqn:Et; simpl.
    + rewrite Et. split; [done|]. split; [lia|]. exists []. split; [by rewrite app_nil_r|].
      by apply sublist_nil_l.
    + destruct (throws args) eqn:Ea; simpl; rewrite ?Et, filter_app, length_app;
        cbn [filter list_filter]; case_decide; try congruence; simpl.
      * split; [done|]. split; [lia|]. by exists [args].
      * split; [lia|]. split; [lia|]. by exists [args].
  - unfold t_fire. destruct (t_pending s) as [|n] eqn:Ep.
    + rewrite Ep. split; [done|]. split; [lia|]. exists []. by rewrite app_nil_r.
    + simpl. destruct (t_inThrottle s); [|done]. split; [lia|]. split; [lia|].
      exists []. by rewrite app_nil_r.
Qed.

Lemma t_run_spec {Args : Type} (throws : Args → bool) (l : list (TStep Args))
    (s : Throttled Args) :
  t_armed s →
  t_armed (t_run throws l s)
  ∧ (length (t_returned throws (t_run throws l s)) + t_pending s
     ≤ length (t_returned throws s) + t_pending (t_run throws l s) + t_fires l)%nat
  ∧ ∃ used, t_calls (t_run throws l s) = t_calls s ++ used ∧ used `sublist_of` t_args l.
Proof.
  revert s. induction l as [|x l IH]; intros s Hs.
  - simpl. split; [done|]. split; [lia|]. exists []. by rewrite app_nil_r.
  - simpl. destruct (t_step_spec throws s x Hs) as (Ha & Hn & u1 & Hc1 & Hu1).
    destruct (IH _ Ha) as (Ha' & Hn' & u2 & Hc2 & Hu2).
    split; [done|]. split; [destruct x; simpl in *; lia|].
    exists (u1 ++ u2). rewrite Hc2, Hc1, <- app_assoc. split; [done|].
    by apply sublist_app.
Qed.

(** X16. A throttled function runs [func] on the leading edge and drops the
    calls made while it is throttled: one timer is pending exactly while
    [inThrottle] is set; the calls of [func] are, in order, arguments of calls
    of the throttled function, each used at most once, and those that
    returned are at most one more than the timers that fired; from the idle
    state a burst of calls runs [func] once, with the first arguments, and the
    timer that then fires runs nothing; a call of [func] that throws leaves
    the function idle. *)
Theorem throttle_leading_edge {Args : Type} (throws : Args → bool) (l : list (TStep Args))
    (args : Args) (burst : list Args) :
  t_armed (t_run throws l throttle)
  ∧ (t_pending (t_run throws l throttle) ≤ 1)%nat
  ∧ t_calls (t_run throws l throttle) `sublist_of` t_args l
  ∧ (length (t_returned throws (t_run throws l throttle)) ≤ S (t_fires l))%nat
  ∧ (t_inThrottle (t_run throws l throttle) = false →
       (throws args = false →
          t_run throws (TCall <$> args :: burst) (t_run throws l throttle)
            = {| t_inThrottle := true; t_pending := 1;
                 t_calls := t_calls (t_run throws l throttle) ++ [args] |}
          ∧ t_run throws ((TCall <$> args :: burst) ++ [TFire]) (t_run throws l throttle)
            = {| t_inThrottle := false; t_pending := 0;
                 t_calls := t_calls (t_run throws l throttle) ++ [args] |})
       ∧ (throws args = true →
            t_run throws [TCall args] (t_run throws l throttle)
              = {| t_inThrottle := false; t_pending := 0;
                   t_calls := t_calls (t_run throws l throttle) ++ [args] |})).
Proof.
  assert (H0 : t_armed (@throttle Args)) by done.
  destruct (t_run_spec throws l throttle H0) as (Ha & Hn & used & Hc & Hu).
  set (s := t_run throws l throttle) in *.
  split; [done|]. split; [unfold t_armed in Ha; destruct (t_inThrottle s); lia|].
  split; [by rewrite Hc|].
  split; [unfold t_armed in Ha; destruct (t_inThrottle s); simpl in Hn; lia|].
  intros Hidle. unfold t_armed in Ha. rewrite Hidle in Ha.
  assert (Hdrop : ∀ (b : list Args) (s' : Throttled Args),
            t_inThrottle s' = true → t_run throws (TCall <$> b) s' = s').
  { induction b as [|x b IH]; intros s' Hs'; [done|]. simpl.
    unfold t_executedFunction. rewrite Hs'. simpl. by apply IH. }
  split.
  - intros Hret.
    assert (H1 : t_run throws (TCall <$> args :: burst) s
                 = {| t_inThrottle := true; t_pending := 1; t_calls := t_calls s ++ [args] |}).
    { simpl. unfold t_executedFunction at 1. rewrite Hidle, Hret, Ha. simpl.
      by apply Hdrop. }
    split; [done|]. unfold t_run in *. rewrite foldl_app, H1. done.
  - intros Hthrow. simpl. unfold t_executedFunction. rewrite Hidle, Hthrow, Ha. done.
Qed.

(** * The back-to-top button *)

(** X17. The back-to-top button: [init] attaches [scrollToTop] to the button
    when the page has one, even if [init] then ends with an exception, and
    attaches it to nothing when the page has none; the listener never throws,
    whatever the page lacks: it asks for one smooth scroll to offset 0 and
    changes nothing else. *)
Theorem back_to_top_click (w w' : World) (key : string) :
  (∀ b, backToTop (elements w) = Some b →
     {| l_target := TElem b; l_type := "click"; l_handler := HScrollToTop |}
       ∈ listeners (world_of (init w)))
  ∧ (backToTop (elements w) = None →
       ∀ l, l ∈ listeners (world_of (init w)) → l_handler l = HScrollToTop →
            l ∈ listeners w)
  ∧ (∀ l, l_handler l = HScrollToTop →
       dispatch l key w'
       = Ok tt (set_scrollTo_calls
                  (scrollTo_calls w' ++ [{| top := 0; behavior := "smooth" |}])
                  (set_defaultPrevented false w'))).
Proof.
  rewrite init_listeners_run. split; [|split].
  - intros b Hb. unfold all_listeners, init_listeners. rewrite Hb.
    unfold click_listener at 1. rewrite !elem_of_app. right. left. right. left.
    by apply list_elem_of_singleton.
  - intros Hb l Hl Hh. apply elem_of_app in Hl as [Hl|Hl]; [done|]. exfalso.
    unfold all_listeners, init_listeners in Hl. rewrite Hb in Hl.
    unfold click_listener at 1 in Hl. rewrite !elem_of_app in Hl.
    destruct Hl as [[Hl|[Hl|[Hl|[Hl|[Hl|[Hl|Hl]]]]]]|[Hl|Hl]].
    + apply list_elem_of_singleton in Hl. by subst l.
    + by apply elem_of_nil in Hl.
    + apply list_elem_of_fmap in Hl as (i & -> & _). done.
    + destruct (modalClose (elements w)); simpl in Hl;
        [apply list_elem_of_singleton in Hl; by subst l|by apply elem_of_nil in Hl].
    + destruct (modalOverlay (elements w)); simpl in Hl;
        [apply list_elem_of_singleton in Hl; by subst l|by apply elem_of_nil in Hl].
    + destruct (waitlistForm w); simpl in Hl;
        [apply list_elem_of_singleton in Hl; by subst l|by apply elem_of_nil in Hl].
    + apply list_elem_of_singleton in Hl. by subst l.
    + apply list_elem_of_fmap in Hl as (i & -> & _). done.
    + apply list_elem_of_bind in Hl as (i & Hl & _). unfold letter_listeners in Hl.
      apply elem_of_cons in Hl as [->|Hl]; [done|].
      apply list_elem_of_singleton in Hl. by subst l.
  - intros l Hh. unfold dispatch. rewrite Hh. by destruct (l_target l).
Qed.
